(** * The collision-detection lesson: [models.py]

    A shallow embedding of
    [examples_for_lessons/collision_detection/models.py]: the bounding-box
    probe of [CollisionObject], the kinematics of [Player], the obstacle
    registry of [ObstacleManager], [Obstacle] and the per-tick bookkeeping of
    [GameState].

    Python's [float] is IEEE 754 binary64 with round-to-nearest-even, which is
    what the primitive type [float] of the Standard Library is, so numbers are
    modelled by it: [+], [-], [*] and the comparisons round and treat NaN
    exactly as the interpreter does. Objects live in a store addressed by
    identity, because the registry and its callers share them. *)

From Stdlib Require Import Floats ZArith Bool List Lia.
From stdpp Require Import base option list strings gmap.

Set Warnings "-inexact-float".
Local Open Scope float_scope.

(** ** Built-ins on floats *)

(** [a >= b] on floats: false as soon as one side is NaN. *)
Definition geb (a b : float) : bool := (b <=? a).

(** [max(a, b)] with two positional arguments: the interpreter keeps the first
    argument and replaces it only when the second compares strictly greater,
    so a NaN in first position is returned as it is. *)
Definition py_max (a b : float) : float := if (a <? b) then b else a.

(** ** Module constants *)

Definition GROUND_Y_LEVEL : float := -0.8.
Definition INITIAL_JUMP_SPEED_IN_Y : float := 0.3.
Definition GRAVITY : float := 0.2.
Definition DESTRUCT_OFFSET_IN_X : float := 1.0.

(** ** class CollisionObject *)

Module CollisionObject.

Record t := Build {
  x : float;
  y : float;
  lower_x_bound : float;
  higher_x_bound : float;
  lower_y_bound : float;
  higher_y_bound : float
}.

(** [__init__] stores its six arguments. *)
Definition __init__ (x y lower_x_bound higher_x_bound
                     lower_y_bound higher_y_bound : float) : t :=
  Build x y lower_x_bound higher_x_bound lower_y_bound higher_y_bound.

Definition set_x (v : float) (o : t) : t :=
  Build v (y o) (lower_x_bound o) (higher_x_bound o)
        (lower_y_bound o) (higher_y_bound o).

Definition set_y (v : float) (o : t) : t :=
  Build (x o) v (lower_x_bound o) (higher_x_bound o)
        (lower_y_bound o) (higher_y_bound o).

(** The four extents of an object, the part of it the probe reads besides
    the positions. *)
Definition bounds (o : t) : float * float * float * float :=
  (lower_x_bound o, higher_x_bound o, lower_y_bound o, higher_y_bound o).

(** [is_colliding_with_object]: a chained comparison [a <= b <= c] is
    [a <= b and b <= c]; the method reads attributes and assigns none. *)
Definition is_colliding_with_object (self other : t) : bool :=
  let collides_in_x :=
    (lower_x_bound other <=? x self - x other)
    && (x self - x other <=? higher_x_bound other) in
  let collides_in_y :=
    (lower_y_bound other <=? y self - y other)
    && (y self - y other <=? higher_y_bound other) in
  if collides_in_x && collides_in_y then true else false.

End CollisionObject.

(** ** The controller handed to [Player.update] *)

Module Controller.
Record t := Build { jump_action_queued : bool }.
End Controller.

(** ** class Player(CollisionObject) *)

Module Player.

(** [speed] is the two-element list [[vx, vy]] that [__init__] builds; the
    module only reads and assigns its two cells, so it is a pair here. *)
Record t := Build {
  base : CollisionObject.t;
  speed : float * float;
  _is_in_air : bool
}.

Definition x (p : t) : float := CollisionObject.x (base p).
Definition y (p : t) : float := CollisionObject.y (base p).

Definition set_x (v : float) (p : t) : t :=
  Build (CollisionObject.set_x v (base p)) (speed p) (_is_in_air p).
Definition set_y (v : float) (p : t) : t :=
  Build (CollisionObject.set_y v (base p)) (speed p) (_is_in_air p).
Definition set_speed1 (v : float) (p : t) : t :=
  Build (base p) (fst (speed p), v) (_is_in_air p).
Definition set_is_in_air (b : bool) (p : t) : t :=
  Build (base p) (speed p) b.

(** [__init__(x, y)]; [y] defaults to [GROUND_Y_LEVEL]. *)
Definition __init__ (x y : float) : t :=
  Build (CollisionObject.__init__ x y 0.1 0.1 0.1 0.1) (0.1, 0.0) false.

(** [update(dt, controller)], statement by statement; both the player and
    the controller are mutated, so both are returned. *)
Definition update (dt : float) (self : t) (controller : Controller.t)
  : t * Controller.t :=
  (* Assuming linear speed *)
  let self := set_x (x self + fst (speed self) * dt) self in
  let self := set_y (y self + snd (speed self) * dt) self in
  let '(self, controller) :=
    if Controller.jump_action_queued controller && negb (_is_in_air self)
    then (* Start jumping *)
      (set_is_in_air true (set_speed1 INITIAL_JUMP_SPEED_IN_Y self),
       Controller.Build false)
    else (self, controller) in
  let self :=
    if _is_in_air self
    then
      let self := set_speed1 (snd (speed self) - GRAVITY * dt) self in
      set_is_in_air (if geb (y self) GROUND_Y_LEVEL then true else false) self
    else set_speed1 0.0 self in
  (* Always fall, until the ground is found *)
  let self := set_y (py_max (y self + snd (speed self) * dt) GROUND_Y_LEVEL) self in
  (self, controller).

End Player.

(** ** The store

    Objects are shared by reference: the registry holds the very objects its
    callers hold, so they are kept in a heap and named by their identity.
    [randn] is the sequence of samples [np.random.randn(1)] will return, with
    [randn_next] the index of the next one. The one-element array it returns
    behaves as its element in every operation of this module. *)

Definition ref := nat.

Inductive object :=
| Plain (o : CollisionObject.t)
| APlayer (p : Player.t).

Definition fields (v : object) : CollisionObject.t :=
  match v with Plain o => o | APlayer p => Player.base p end.

Definition assign_x (v : float) (ob : object) : object :=
  match ob with
  | Plain o => Plain (CollisionObject.set_x v o)
  | APlayer p => APlayer (Player.set_x v p)
  end.

(** The attributes written in the body of [class GameState]; [player] is
    [None] until the game assigns one. *)
Record GameState_attrs := {
  camera_position : float;
  total_time_played : float;
  player : option ref
}.

Record World := {
  heap : gmap ref object;
  next_ref : ref;
  obstacles : list ref;              (* ObstacleManager.obstacles, a deque *)
  GameState_class : GameState_attrs; (* the class attributes of GameState *)
  randn : nat -> float;
  randn_next : nat
}.

Definition with_heap (h : gmap ref object) (w : World) : World :=
  {| heap := h; next_ref := next_ref w; obstacles := obstacles w;
     GameState_class := GameState_class w;
     randn := randn w; randn_next := randn_next w |}.

Definition with_obstacles (d : list ref) (w : World) : World :=
  {| heap := heap w; next_ref := next_ref w; obstacles := d;
     GameState_class := GameState_class w;
     randn := randn w; randn_next := randn_next w |}.

(** ** Computations: a store, and exceptions that keep the effects made so far *)

Inductive exn := TypeError | AttributeError | IndexError.

(** [NoFuel] and [NoObject] are not Python outcomes: the first marks a loop
    cut short by the fuel of the model, the second a reference to no object,
    which a well-formed store never holds. *)
Inductive outcome (A : Type) :=
| Ok (a : A)
| Raise (e : exn)
| NoFuel
| NoObject.
Arguments Ok {A} a.
Arguments Raise {A} e.
Arguments NoFuel {A}.
Arguments NoObject {A}.

Definition M (A : Type) : Type := World -> outcome A * World.

Definition ret {A} (a : A) : M A := fun w => (Ok a, w).

Definition bind {A B} (c : M A) (k : A -> M B) : M B :=
  fun w =>
    match c w with
    | (Ok a, w') => k a w'
    | (Raise e, w') => (Raise e, w')
    | (NoFuel, w') => (NoFuel, w')
    | (NoObject, w') => (NoObject, w')
    end.

Notation "x <- c ;; k" := (bind c (fun x => k))
  (at level 100, c at next level, right associativity).
Notation "c ;;; k" := (bind c (fun _ => k))
  (at level 100, k at level 200, right associativity).

Definition raise {A} (e : exn) : M A := fun w => (Raise e, w).
Definition no_fuel {A} : M A := fun w => (NoFuel, w).
Definition gets {A} (f : World -> A) : M A := fun w => (Ok (f w), w).
Definition modify (f : World -> World) : M unit := fun w => (Ok tt, f w).

Definition deref (r : ref) : M object :=
  fun w => match heap w !! r with
           | Some v => (Ok v, w)
           | None => (NoObject, w)
           end.

(** [r.x] and [r.x = v] on an object of the heap. *)
Definition getattr_x (r : ref) : M float :=
  v <- deref r ;; ret (CollisionObject.x (fields v)).

Definition setattr_x (r : ref) (v : float) : M unit :=
  ob <- deref r ;; modify (fun w => with_heap (<[r := assign_x v ob]> (heap w)) w).

(** [o.x] where [o] may be [None]. *)
Definition getattr_x_opt (o : option ref) : M float :=
  match o with
  | Some r => getattr_x r
  | None => raise AttributeError
  end.

(** [deque.append] and [deque[-1]]. *)
Definition deque_append (r : ref) : M unit :=
  modify (fun w => with_obstacles (obstacles w ++ [r]) w).

Definition deque_last : M ref :=
  d <- gets obstacles ;;
  match last d with
  | Some r => ret r
  | None => raise IndexError
  end.

Definition np_random_randn : M float :=
  fun w => (Ok (randn w (randn_next w)),
            {| heap := heap w; next_ref := next_ref w; obstacles := obstacles w;
               GameState_class := GameState_class w;
               randn := randn w; randn_next := S (randn_next w) |}).

Definition alloc (v : object) : M ref :=
  fun w => (Ok (next_ref w),
            {| heap := <[next_ref w := v]> (heap w); next_ref := S (next_ref w);
               obstacles := obstacles w; GameState_class := GameState_class w;
               randn := randn w; randn_next := randn_next w |}).

(** ** The values that reach [<=] and [len] *)

Inductive value :=
| VInt (n : Z)
| VBool (b : bool)
| VDeque (d : list ref).

Definition as_int (v : value) : option Z :=
  match v with
  | VInt n => Some n
  | VBool b => Some (Z.b2z b)
  | VDeque _ => None
  end.

(** Two deques compare as sequences; their items here are objects without
    [__eq__] or [__lt__], equal only when identical and never ordered. *)
Fixpoint deque_le (d1 d2 : list ref) : outcome bool :=
  match d1, d2 with
  | [], _ => Ok true
  | _ :: _, [] => Ok false
  | a :: d1', b :: d2' =>
      if Nat.eqb a b then deque_le d1' d2' else Raise TypeError
  end.

(** [a <= b]: integers (and booleans, which are integers) compare by value,
    deques with deques; a deque against an integer is handled by neither
    operand and raises [TypeError]. *)
Definition py_le (a b : value) : outcome value :=
  match as_int a, as_int b with
  | Some m, Some n => Ok (VBool (m <=? n)%Z)
  | _, _ =>
      match a, b with
      | VDeque d1, VDeque d2 =>
          match deque_le d1 d2 with
          | Ok r => Ok (VBool r)
          | Raise e => Raise e
          | NoFuel => NoFuel
          | NoObject => NoObject
          end
      | _, _ => Raise TypeError
      end
  end.

(** [len(v)]: defined on the deque, not on numbers. *)
Definition py_len (v : value) : outcome Z :=
  match v with
  | VDeque d => Ok (Z.of_nat (length d))
  | _ => Raise TypeError
  end.

Definition lift {A} (o : outcome A) : M A := fun w => (o, w).

(** A call with positional arguments to a method of one parameter besides
    [cls]: any other number of arguments raises [TypeError]. *)
Definition call1 {A} (f : ref -> M A) (args : list ref) : M A :=
  match args with
  | [a] => f a
  | _ => raise TypeError
  end.

(** ** class GameState *)

Module GameState.

(** An instance carries the attributes assigned on it; any other attribute
    is read from the class. [GameState()] is an instance with none. *)
Record t := Build {
  own_camera_position : option float;
  own_total_time_played : option float;
  own_player : option (option ref)
}.

Definition __new__ : t := Build None None None.

Definition get_camera_position (self : t) : M float :=
  gets (fun w => default (camera_position (GameState_class w))
                         (own_camera_position self)).
Definition get_total_time_played (self : t) : M float :=
  gets (fun w => default (total_time_played (GameState_class w))
                         (own_total_time_played self)).
Definition get_player (self : t) : M (option ref) :=
  gets (fun w => default (player (GameState_class w)) (own_player self)).

(** [update(self, dt)]: both assignments create or overwrite attributes of
    the instance. *)
Definition update (dt : float) (self : t) : M t :=
  p <- get_player self ;;
  px <- getattr_x_opt p ;;
  let self := Build (Some px) (own_total_time_played self) (own_player self) in
  total <- get_total_time_played self ;;
  let self := Build (own_camera_position self) (Some (total + dt))
                    (own_player self) in
  ret self.

End GameState.

(** ** class ObstacleManager *)

Module ObstacleManager.

Definition X_DISTANCE_BETWEEN_OBSTACLES_STD : float := 0.3.
Definition FIRST_OBSTACLE_OFFSET_IN_X : float := 0.8.

Definition _obstacles_do_overlap (obs1 obs2 : CollisionObject.t) : bool :=
  let obs1_at_the_left := (CollisionObject.x obs1 <=? CollisionObject.x obs2) in
  let x_overlap :=
    if obs1_at_the_left
    then geb (CollisionObject.higher_x_bound obs1) (CollisionObject.lower_x_bound obs2)
    else (CollisionObject.higher_x_bound obs1 <=? CollisionObject.lower_x_bound obs2) in
  let obs1_on_top := geb (CollisionObject.y obs1) (CollisionObject.y obs2) in
  let y_overlap :=
    if obs1_on_top
    then geb (CollisionObject.lower_y_bound obs1) (CollisionObject.higher_y_bound obs2)
    else (CollisionObject.lower_y_bound obs1 <=? CollisionObject.higher_y_bound obs2) in
  x_overlap && y_overlap.

Definition _simple_set_obstacle_at_the_right_of_player (curr_obstacle : ref)
  : M unit :=
  (* just add it to the right of the player before the player can see it *)
  let gameState := GameState.__new__ in
  p <- GameState.get_player gameState ;;
  player_position_x <- getattr_x_opt p ;;
  setattr_x curr_obstacle (player_position_x + FIRST_OBSTACLE_OFFSET_IN_X) ;;;
  deque_append curr_obstacle.

(** The [while] loop of [_set_random_position]; [fuel] bounds the number of
    redraws the model follows. *)
Fixpoint reallocate (fuel : nat) (curr_obstacle last_positioned_obstacle : ref)
                    (std_sigma : float) : M unit :=
  o1 <- deref curr_obstacle ;;
  o2 <- deref last_positioned_obstacle ;;
  if _obstacles_do_overlap (fields o1) (fields o2)
  then
    match fuel with
    | O => no_fuel
    | S fuel' =>
        let std_sigma := std_sigma * 0.5 in
        r <- np_random_randn ;;
        last_x <- getattr_x last_positioned_obstacle ;;
        setattr_x curr_obstacle (last_x + abs (r * std_sigma)) ;;;
        reallocate fuel' curr_obstacle last_positioned_obstacle std_sigma
    end
  else ret tt.

(** The condition is written [len(cls.obstacles <= 0)]: the comparison is
    evaluated first and its result handed to [len]. *)
Definition _set_random_position (fuel : nat) (curr_obstacle : ref) : M unit :=
  d <- gets obstacles ;;
  c <- lift (py_le (VDeque d) (VInt 0)) ;;
  n <- lift (py_len c) ;;
  if negb (n =? 0)%Z
  then call1 _simple_set_obstacle_at_the_right_of_player []
  else
    last_positioned_obstacle <- deque_last ;;
    (* Suggest a random position for our obstacle plus an offset *)
    let std_sigma := X_DISTANCE_BETWEEN_OBSTACLES_STD in
    r <- np_random_randn ;;
    last_x <- getattr_x last_positioned_obstacle ;;
    setattr_x curr_obstacle (last_x + abs (r * std_sigma)) ;;;
    reallocate fuel curr_obstacle last_positioned_obstacle std_sigma.

Definition add_new_obstacle (fuel : nat) (obstacle : ref) : M unit :=
  deque_append obstacle ;;;
  call1 (_set_random_position fuel) [obstacle].

(** The callable attributes of the class, by name, as [getattr] finds them;
    a name the class body does not define raises [AttributeError]. *)
Definition getattr (fuel : nat) (name : string) : M (list ref -> M unit) :=
  if String.eqb name "add_new_obstacle"
  then ret (call1 (add_new_obstacle fuel))
  else if String.eqb name "_set_random_position"
  then ret (call1 (_set_random_position fuel))
  else if String.eqb name "_simple_set_obstacle_at_the_right_of_player"
  then ret (call1 _simple_set_obstacle_at_the_right_of_player)
  else raise AttributeError.

End ObstacleManager.

(** ** class Obstacle(CollisionObject) *)

Module Obstacle.

Definition __init__ (fuel : nat)
    (x y lower_x_bound higher_x_bound lower_y_bound higher_y_bound : float)
  : M ref :=
  self <- alloc (Plain (CollisionObject.__init__ x y lower_x_bound higher_x_bound
                                                lower_y_bound higher_y_bound)) ;;
  deque_append self ;;;
  set_random_position <- ObstacleManager.getattr fuel "set_random_position" ;;
  set_random_position [self] ;;;
  ret self.

Definition render (self : ref) : M unit := ret tt.

(** [check_for_destroy]: [GameState.camera_position] is read on the class;
    [del self] unbinds the local name [self] and touches no object and no
    container. *)
Definition check_for_destroy (self : ref) : M unit :=
  self_x <- getattr_x self ;;
  cam <- gets (fun w => camera_position (GameState_class w)) ;;
  if (self_x <=? cam - DESTRUCT_OFFSET_IN_X)
  then (* del self *) ret tt
  else ret tt.

End Obstacle.

(** ** Method calls on objects of the store *)

(** [self.is_colliding_with_object(other)] for two objects of the heap: the
    attributes are read through the references the caller holds. *)
Definition is_colliding_with_object (self other : ref) : M bool :=
  a <- deref self ;;
  b <- deref other ;;
  ret (CollisionObject.is_colliding_with_object (fields a) (fields b)).

(** ** The game loop, as far as [GameState] goes *)

(** One [update] per tick, on the same instance. *)
Fixpoint run_ticks (dts : list float) (self : GameState.t) : M GameState.t :=
  match dts with
  | [] => ret self
  | dt :: rest => self' <- GameState.update dt self ;; run_ticks rest self'
  end.

(** The position [Player.update] holds after its first two statements, the
    one its airborne test reads. *)
Definition integrated_y (dt : float) (p : Player.t) : float :=
  Player.y p + snd (Player.speed p) * dt.

(** The [x] of the objects of a deque, in order. *)
Definition xs_of (w : World) (d : list ref) : list (option float) :=
  map (fun r => CollisionObject.x <$> (fields <$> heap w !! r)) d.

(** ** Sample objects and stores *)

(** A probe at [(0.5, 0)] against a unit box anchored at the origin. *)
Definition probe_point : CollisionObject.t :=
  CollisionObject.__init__ 0.5 0.0 0.0 0.0 0.0 0.0.
Definition unit_box : CollisionObject.t :=
  CollisionObject.__init__ 0.0 0.0 0.0 1.0 0.0 1.0.

Definition two_object_world : World :=
  {| heap := {[ 0%nat := Plain probe_point; 1%nat := Plain unit_box ]};
     next_ref := 2%nat; obstacles := [];
     GameState_class :=
       {| camera_position := 0.0; total_time_played := 0.0; player := None |};
     randn := fun _ => 0.0; randn_next := 0%nat |}.

(** A player at [x = 5.0] and one obstacle, built at [x = 0.0], not yet
    registered. *)
Definition first_spawn_world : World :=
  {| heap := {[ 0%nat := APlayer (Player.__init__ 5.0 GROUND_Y_LEVEL);
                1%nat := Plain (CollisionObject.__init__ 0.0 0.0 0.1 0.1 0.1 0.1) ]};
     next_ref := 2%nat; obstacles := [];
     GameState_class :=
       {| camera_position := 5.0; total_time_played := 0.0; player := Some 0%nat |};
     randn := fun _ => 1.0; randn_next := 0%nat |}.

(** Two objects built at [x = 1.0] and [x = 0.0], to be registered in that
    order. *)
Definition two_spawn_world : World :=
  {| heap := {[ 0%nat := APlayer (Player.__init__ 5.0 GROUND_Y_LEVEL);
                1%nat := Plain (CollisionObject.__init__ 1.0 0.0 0.1 0.1 0.1 0.1);
                2%nat := Plain (CollisionObject.__init__ 0.0 0.0 0.1 0.1 0.1 0.1) ]};
     next_ref := 3%nat; obstacles := [];
     GameState_class :=
       {| camera_position := 5.0; total_time_played := 0.0; player := Some 0%nat |};
     randn := fun _ => 1.0; randn_next := 0%nat |}.

(** One registered obstacle at [x = -2.0], the camera at [0.0]. *)
Definition expired_world : World :=
  {| heap := {[ 0%nat := APlayer (Player.__init__ 0.0 GROUND_Y_LEVEL);
                1%nat := Plain (CollisionObject.__init__ (-2.0) 0.0 0.1 0.1 0.1 0.1) ]};
     next_ref := 2%nat; obstacles := [1%nat];
     GameState_class :=
       {| camera_position := 0.0; total_time_played := 0.0; player := Some 0%nat |};
     randn := fun _ => 1.0; randn_next := 0%nat |}.


(** ** Vocabulary for binary floating-point formats

    [SpecFloat] describes a finite float by a sign, a mantissa [m] and an
    exponent [e], worth [m * 2 ^ e]. The definitions below name what the
    proofs about rounding speak of, for a format of precision [prec] and
    largest exponent [emax]. *)

Section FloatVocabulary.

Local Open Scope Z_scope.
Variables prec emax : Z.

(** The number of bits of a mantissa. *)
Definition digits (m : positive) : Z := Z.pos (digits2_pos m).

(** [(m, e)] is the representation the format gives to its value. *)
Definition canon (m : positive) (e : Z) : Prop :=
  SpecFloat.fexp prec emax (digits m + e) = e.

(** The value [m * 2 ^ e] counted in units of the smallest subnormal. *)
Definition val (m : positive) (e : Z) : Z :=
  Z.pos m * 2 ^ (e - SpecFloat.emin prec emax).

(** Some set bit was shifted out. *)
Definition inexact (mrs : shr_record) : bool := shr_r mrs || shr_s mrs.

(** [mrs] is [mrs0] shifted right by [k] bits: the mantissa is the quotient
    and the round and sticky bits are clear when no set bit was lost. *)
Definition shifted (k : Z) (mrs0 mrs : shr_record) : Prop :=
  shr_m mrs = shr_m mrs0 / 2 ^ k
  /\ (inexact mrs = true ->
      shr_m mrs0 mod 2 ^ k <> 0 \/ inexact mrs0 = true).

(** The order [SFcompare] puts on two positive finite floats. *)
Definition lex (m1 : positive) (e1 : Z) (m2 : positive) (e2 : Z) : comparison :=
  match e1 ?= e2 with
  | Lt => Lt
  | Gt => Gt
  | Eq => Pos.compare_cont Eq m1 m2
  end.

End FloatVocabulary.

(** * Comparison in [SpecFloat] *)

(** [SFcompare] is antisymmetric, and reflexive away from NaN. *)
Lemma SFcompare_antisym (a b : spec_float) (c : comparison) :
  SFcompare a b = Some c -> SFcompare b a = Some (CompOpp c).
Proof.
  destruct a as [sa|sa| |sa ma ea], b as [sb|sb| |sb mb eb];
    simpl; try discriminate;
    try (destruct sa; intros [= <-]; reflexivity);
    try (destruct sb; intros [= <-]; reflexivity);
    try (destruct sa, sb; intros [= <-]; reflexivity).
  destruct sa, sb; intros [= <-]; try reflexivity;
    rewrite (Z.compare_antisym ea eb), !Pos.compare_cont_spec;
    rewrite (Pos.compare_antisym ma mb);
    destruct (ea ?= eb)%Z; simpl; try reflexivity;
    destruct (ma ?= mb)%positive; reflexivity.
Qed.

Lemma SFcompare_refl (a : spec_float) :
  a <> S754_nan -> SFcompare a a = Some Eq.
Proof.
  destruct a as [s|s| |s m e]; simpl; try congruence; intros _.
  - destruct s; reflexivity.
  - rewrite Z.compare_refl, Pos.compare_cont_spec, Pos.compare_refl.
    destruct s; reflexivity.
Qed.

(** * Rounding in [SpecFloat]

    What [binary_round] returns for a positive mantissa, and from it that
    adding a non-negative float never gives a smaller one. *)

Section Rounding.

Local Open Scope Z_scope.
Variables prec emax : Z.
Hypothesis prec_pos : 0 < prec.

Local Abbreviation emin_ := (SpecFloat.emin prec emax).
Local Abbreviation fexp_ := (SpecFloat.fexp prec emax).
Local Abbreviation canon_ := (canon prec emax).
Local Abbreviation val_ := (val prec emax).

Ltac hide_pows :=
  repeat match goal with
         | |- context [2 ^ ?k] =>
             let x := fresh "pw" in set (x := 2 ^ k) in *; clearbody x
         | H : context [2 ^ ?k] |- _ =>
             let x := fresh "pw" in set (x := 2 ^ k) in *; clearbody x
         end.

Lemma digits_pos m : 0 < digits m.
Proof. unfold digits. lia. Qed.

(** A mantissa of [d] bits lies in [[2 ^ (d - 1), 2 ^ d)], and only there. *)
Lemma digits_spec m : 2 ^ (digits m - 1) <= Z.pos m < 2 ^ digits m.
Proof.
  unfold digits. induction m as [m IH|m IH|]; simpl digits2_pos.
  - rewrite Pos2Z.inj_succ. change (Z.pos m~1) with (2 * Z.pos m + 1).
    replace (Z.succ (Z.pos (digits2_pos m)) - 1) with (Z.succ (Z.pos (digits2_pos m) - 1)) by lia.
    rewrite !Z.pow_succ_r by lia. hide_pows. lia.
  - rewrite Pos2Z.inj_succ. change (Z.pos m~0) with (2 * Z.pos m).
    replace (Z.succ (Z.pos (digits2_pos m)) - 1) with (Z.succ (Z.pos (digits2_pos m) - 1)) by lia.
    rewrite !Z.pow_succ_r by lia. hide_pows. lia.
  - simpl. lia.
Qed.

Lemma digits_unique m d : 2 ^ (d - 1) <= Z.pos m < 2 ^ d -> digits m = d.
Proof.
  intros [Hl Hu]. pose proof (digits_spec m) as [Hl' Hu'].
  pose proof (digits_pos m).
  destruct (Z.lt_trichotomy (digits m) d) as [Hlt|[Heq|Hgt]]; [|exact Heq|].
  - assert (2 ^ digits m <= 2 ^ (d - 1)) by (apply Z.pow_le_mono_r; lia).
    hide_pows. lia.
  - destruct (Z.le_gt_cases 0 d) as [Hd|Hd].
    + assert (2 ^ d <= 2 ^ (digits m - 1)) by (apply Z.pow_le_mono_r; lia).
      hide_pows. lia.
    + rewrite (Z.pow_neg_r 2 d) in Hu by lia. lia.
Qed.

(** A canonical exponent is at least [emin]; above [emin] the mantissa has
    all its [prec] bits. *)
Lemma canon_emin m e : canon_ m e -> emin_ <= e.
Proof. unfold canon, SpecFloat.fexp. lia. Qed.

Lemma canon_digits m e : canon_ m e -> digits m <= prec.
Proof. unfold canon, SpecFloat.fexp. lia. Qed.

Lemma canon_normal m e : canon_ m e -> emin_ < e -> digits m = prec.
Proof. unfold canon, SpecFloat.fexp. lia. Qed.

(** Values below the grid of a normal exponent. *)
Lemma val_below m e e0 :
  canon_ m e -> e < e0 ->
  val_ m e < 2 ^ (prec - 1) * 2 ^ (e0 - emin_).
Proof.
  intros Hc Hlt. pose proof (canon_emin _ _ Hc). pose proof (canon_digits _ _ Hc).
  pose proof (digits_spec m) as [_ Hu]. pose proof (digits_pos m).
  unfold val.
  assert (Z.pos m < 2 ^ prec).
  { eapply Z.lt_le_trans; [exact Hu|]. apply Z.pow_le_mono_r; lia. }
  assert (0 < 2 ^ (e - emin_)) by (apply Z.pow_pos_nonneg; lia).
  assert (2 ^ prec * 2 ^ (e - emin_) <= 2 ^ (prec - 1) * 2 ^ (e0 - emin_)).
  { rewrite <- !Z.pow_add_r by lia. apply Z.pow_le_mono_r; lia. }
  hide_pows. nia.
Qed.

(** Canonical floats are ordered by their exponents first. *)
Lemma val_lt_of_exp m1 e1 m2 e2 :
  canon_ m1 e1 -> canon_ m2 e2 -> e1 < e2 -> val_ m1 e1 < val_ m2 e2.
Proof.
  intros H1 H2 Hlt. pose proof (val_below _ _ _ H1 Hlt).
  pose proof (canon_emin _ _ H1).
  assert (digits m2 = prec) by (apply (canon_normal _ _ H2); lia).
  pose proof (digits_spec m2) as [Hl _]. rewrite H3 in Hl.
  assert (0 < 2 ^ (e2 - emin_)) by (apply Z.pow_pos_nonneg; lia).
  unfold val at 2. hide_pows. nia.
Qed.

(** *** Shifting right *)

Lemma shr_1_shifted mrs : 0 <= shr_m mrs -> shifted 1 mrs (shr_1 mrs).
Proof.
  destruct mrs as [m r s]. unfold shifted, inexact. simpl shr_m at 2 3.
  change (2 ^ 1) with 2. intros Hm. cbn [shr_m] in Hm.
  destruct m as [|[q|q|]|q]; try lia; cbn [shr_1 shr_m shr_r shr_s].
  - split; [reflexivity|]. cbn [orb]. auto.
  - change (Z.pos q~1) with (2 * Z.pos q + 1). split.
    + apply Z.div_unique with 1; lia.
    + intros _. left. rewrite <- (Z.mod_unique (2 * Z.pos q + 1) 2 (Z.pos q) 1); lia.
  - change (Z.pos q~0) with (2 * Z.pos q). split.
    + apply Z.div_unique with 0; lia.
    + cbn [orb]. auto.
  - split; [reflexivity|]. intros _. left. discriminate.
Qed.

Lemma shifted_trans a b m0 m1 m2 :
  0 <= a -> 0 <= b -> 0 <= shr_m m0 ->
  shifted a m0 m1 -> shifted b m1 m2 -> shifted (a + b) m0 m2.
Proof.
  intros Ha Hb H0 [E1 I1] [E2 I2].
  assert (Pa : 0 < 2 ^ a) by (apply Z.pow_pos_nonneg; lia).
  assert (Pb : 0 < 2 ^ b) by (apply Z.pow_pos_nonneg; lia).
  unfold shifted. rewrite Z.pow_add_r by lia. split.
  - rewrite E2, E1. apply Z.div_div; lia.
  - intros Hi. pose proof (Z.div_mod (shr_m m0) (2 ^ a) ltac:(lia)) as D1.
    pose proof (Z.mod_pos_bound (shr_m m0) (2 ^ a) Pa) as B1.
    pose proof (Z.div_mod (shr_m m0 / 2 ^ a) (2 ^ b) ltac:(lia)) as D2.
    pose proof (Z.mod_pos_bound (shr_m m0 / 2 ^ a) (2 ^ b) Pb) as B2.
    destruct (Z.eq_dec (shr_m m0 mod (2 ^ a * 2 ^ b)) 0) as [Z0|]; [|auto].
    right.
    apply Z.mod_divide in Z0; [|lia]. destruct Z0 as [k Hk].
    assert (Hq : shr_m m0 / 2 ^ a = k * 2 ^ b).
    { symmetry. apply Z.div_unique with 0; lia. }
    assert (Hr : shr_m m0 mod 2 ^ a = 0).
    { symmetry. apply Z.mod_unique with (k * 2 ^ b); lia. }
    destruct (I2 Hi) as [N|N].
    + exfalso. apply N. rewrite E1, Hq. apply Z.mod_mul. lia.
    + destruct (I1 N) as [N'|N']; [contradiction|exact N'].
Qed.

Lemma shifted_nonneg k m0 m1 :
  0 <= k -> 0 <= shr_m m0 -> shifted k m0 m1 -> 0 <= shr_m m1.
Proof.
  intros Hk H0 [E _]. rewrite E. apply Z.div_pos; [lia|].
  apply Z.pow_pos_nonneg; lia.
Qed.

(** [shr] by [n] bits, which iterates [shr_1]. *)
Lemma iter_pos_shifted n : forall mrs,
  0 <= shr_m mrs -> shifted (Z.pos n) mrs (SpecFloat.iter_pos shr_1 n mrs).
Proof.
  induction n as [n IH|n IH|]; intros mrs Hm; cbn [SpecFloat.iter_pos].
  - replace (Z.pos n~1) with (1 + (Z.pos n + Z.pos n)) by lia.
    pose proof (shr_1_shifted mrs Hm) as S1.
    pose proof (shifted_nonneg 1 _ _ ltac:(lia) Hm S1) as N1.
    pose proof (IH _ N1) as S2.
    pose proof (shifted_nonneg (Z.pos n) _ _ ltac:(lia) N1 S2) as N2.
    pose proof (IH _ N2) as S3.
    eapply shifted_trans; [lia|lia|exact Hm|exact S1|].
    eapply shifted_trans; [lia|lia|exact N1|exact S2|exact S3].
  - replace (Z.pos n~0) with (Z.pos n + Z.pos n) by lia.
    pose proof (IH _ Hm) as S2.
    pose proof (shifted_nonneg (Z.pos n) _ _ ltac:(lia) Hm S2) as N2.
    eapply shifted_trans; [lia|lia|exact Hm|exact S2|exact (IH _ N2)].
  - apply shr_1_shifted, Hm.
Qed.

(** Rounding to nearest even moves the mantissa by at most one, and not at
    all when nothing was lost. *)
Lemma round_nearest_even_bounds mrs :
  shr_m mrs <= round_nearest_even (shr_m mrs) (loc_of_shr_record mrs)
            <= shr_m mrs + 1
  /\ (inexact mrs = false ->
      round_nearest_even (shr_m mrs) (loc_of_shr_record mrs) = shr_m mrs).
Proof.
  destruct mrs as [m [] []]; unfold inexact; simpl;
    try destruct (Z.even m); split; try discriminate; try reflexivity; lia.
Qed.

(** *** Rounding a positive mantissa *)

Lemma iter_xO_pow (M d : positive) :
  Z.pos (Pos.iter xO M d) = Z.pos M * 2 ^ Z.pos d.
Proof.
  induction d as [|d IH] using Pos.peano_ind.
  - simpl. lia.
  - rewrite Pos.iter_succ, Pos2Z.inj_succ, Z.pow_succ_r by lia.
    change (Z.pos (Pos.iter xO M d)~0) with (2 * Z.pos (Pos.iter xO M d)).
    rewrite IH. ring.
Qed.

Lemma shl_align_spec M e e0 :
  e0 <= e ->
  exists mz, shl_align M e e0 = (mz, e0) /\ Z.pos mz = Z.pos M * 2 ^ (e - e0).
Proof.
  intros H. unfold shl_align. destruct (e0 - e) as [|d|d] eqn:E; try lia.
  - exists M. replace e0 with e by lia. rewrite Z.sub_diag. split; [reflexivity|].
    simpl. lia.
  - exists (Pos.iter xO M d). split; [reflexivity|].
    replace (e - e0) with (Z.pos d) by lia. apply iter_xO_pow.
Qed.

Lemma shl_align_none M e e0 : e < e0 -> shl_align M e e0 = (M, e).
Proof.
  intros H. unfold shl_align. destruct (e0 - e) eqn:E; try lia; reflexivity.
Qed.

Lemma digits_shift M mz k :
  0 <= k -> Z.pos mz = Z.pos M * 2 ^ k -> digits mz = digits M + k.
Proof.
  intros Hk E. apply digits_unique. rewrite E.
  pose proof (digits_spec M) as [Hl Hu]. pose proof (digits_pos M).
  replace (digits M + k - 1) with (digits M - 1 + k) by lia.
  rewrite !Z.pow_add_r by lia.
  assert (0 < 2 ^ k) by (apply Z.pow_pos_nonneg; lia).
  hide_pows. nia.
Qed.

Lemma shr_fexp_canon m e :
  canon_ m e ->
  shr_fexp prec emax (Z.pos m) e loc_Exact
  = ({| shr_m := Z.pos m; shr_r := false; shr_s := false |}, e).
Proof.
  unfold canon, digits, shr_fexp. intros H. simpl Zdigits2.
  rewrite H, Z.sub_diag. reflexivity.
Qed.

(** A canonical mantissa is already rounded. *)
Lemma binary_round_aux_canon s m e :
  canon_ m e ->
  binary_round_aux prec emax s (Z.pos m) e loc_Exact
  = if e <=? emax - prec then S754_finite s m e else S754_infinity s.
Proof.
  intros H. unfold binary_round_aux.
  rewrite (shr_fexp_canon m e H). cbn [shr_m loc_of_shr_record round_nearest_even].
  rewrite (shr_fexp_canon m e H). reflexivity.
Qed.

(** The exact case: the aligned mantissa is canonical. *)
Lemma binary_round_exact s M e :
  fexp_ (digits M + e) <= e ->
  exists mz,
    canon_ mz (fexp_ (digits M + e))
    /\ val_ mz (fexp_ (digits M + e)) = val_ M e
    /\ binary_round prec emax s M e
       = (if fexp_ (digits M + e) <=? emax - prec
          then S754_finite s mz (fexp_ (digits M + e)) else S754_infinity s).
Proof.
  intros Hle. unfold binary_round. fold (digits M).
  set (e0 := fexp_ (digits M + e)) in *.
  assert (He0 : emin_ <= e0) by (unfold e0, SpecFloat.fexp; lia).
  destruct (shl_align_spec M e e0 Hle) as (mz & -> & Hz).
  assert (Hd : digits mz = digits M + (e - e0)) by (apply digits_shift; [lia|exact Hz]).
  assert (Hc : canon_ mz e0).
  { unfold canon. rewrite Hd.
    replace (digits M + (e - e0) + e0) with (digits M + e) by lia. reflexivity. }
  exists mz. split; [exact Hc|]. split.
  - unfold val. rewrite Hz, <- Z.mul_assoc, <- Z.pow_add_r by lia.
    f_equal. f_equal. lia.
  - apply binary_round_aux_canon, Hc.
Qed.

(** The inexact case: [e < fexp (digits M + e)], so low bits are dropped. *)
Lemma binary_round_shift s M e :
  emin_ <= e -> e < fexp_ (digits M + e) ->
  exists m2 m3 e3 d,
    Z.pos d = fexp_ (digits M + e) - e
    /\ 2 ^ (prec - 1) <= Z.pos M / 2 ^ Z.pos d
    /\ Z.pos M / 2 ^ Z.pos d <= m2 <= Z.pos M / 2 ^ Z.pos d + 1
    /\ (Z.pos M mod 2 ^ Z.pos d = 0 -> m2 = Z.pos M / 2 ^ Z.pos d)
    /\ m2 <= 2 ^ prec
    /\ canon_ m3 e3
    /\ val_ m3 e3 = m2 * 2 ^ (fexp_ (digits M + e) - emin_)
    /\ (e3 = fexp_ (digits M + e)
        \/ (e3 = fexp_ (digits M + e) + 1 /\ m2 = 2 ^ prec))
    /\ binary_round prec emax s M e
       = (if e3 <=? emax - prec then S754_finite s m3 e3 else S754_infinity s).
Proof.
  intros He Hgt. unfold binary_round. fold (digits M).
  set (e0 := fexp_ (digits M + e)) in *.
  rewrite (shl_align_none M e e0 Hgt).
  assert (Hn : e0 = digits M + e - prec) by (unfold e0, SpecFloat.fexp in *; lia).
  destruct (e0 - e) as [|d|d] eqn:Ed; try lia.
  set (rec0 := {| shr_m := Z.pos M; shr_r := false; shr_s := false |}).
  assert (F1 : shr_fexp prec emax (Z.pos M) e loc_Exact
               = (SpecFloat.iter_pos shr_1 d rec0, e0)).
  { unfold shr_fexp. simpl Zdigits2. fold (digits M). fold e0. rewrite Ed.
    unfold shr. fold rec0. f_equal. lia. }
  destruct (iter_pos_shifted d rec0 ltac:(simpl; lia)) as [Hq Hi].
  set (mrs1 := SpecFloat.iter_pos shr_1 d rec0) in *.
  destruct (round_nearest_even_bounds mrs1) as [Hb Hx].
  unfold binary_round_aux. rewrite F1.
  set (m2 := round_nearest_even (shr_m mrs1) (loc_of_shr_record mrs1)) in *.
  cbn [shr_m rec0] in Hq, Hi. rewrite Hq in Hb, Hx.
  pose proof (digits_spec M) as [Ml Mu].
  assert (PN : 0 < 2 ^ Z.pos d) by (apply Z.pow_pos_nonneg; lia).
  assert (Hu : 2 ^ digits M = 2 ^ prec * 2 ^ Z.pos d).
  { rewrite <- Z.pow_add_r by lia. f_equal. lia. }
  assert (Hl : 2 ^ (digits M - 1) = 2 ^ (prec - 1) * 2 ^ Z.pos d).
  { rewrite <- Z.pow_add_r by lia. f_equal. lia. }
  assert (Q1 : 2 ^ (prec - 1) <= Z.pos M / 2 ^ Z.pos d).
  { apply Z.div_le_lower_bound; [exact PN|]. rewrite Z.mul_comm, <- Hl. exact Ml. }
  assert (Q2 : Z.pos M / 2 ^ Z.pos d < 2 ^ prec).
  { apply Z.div_lt_upper_bound; [exact PN|]. rewrite Z.mul_comm, <- Hu. exact Mu. }
  assert (PP : 0 < 2 ^ (prec - 1)) by (apply Z.pow_pos_nonneg; lia).
  assert (P2 : 2 ^ prec = 2 * 2 ^ (prec - 1)).
  { rewrite <- Z.pow_succ_r by lia. f_equal. lia. }
  assert (Hexact : Z.pos M mod 2 ^ Z.pos d = 0 -> m2 = Z.pos M / 2 ^ Z.pos d).
  { intros Hz. apply Hx. destruct (inexact mrs1); [|reflexivity].
    destruct (Hi eq_refl) as [N|N]; [contradiction|discriminate N]. }
  destruct m2 as [|m2'|m2'] eqn:Em2; try lia.
  destruct (Z.eq_dec (Z.pos m2') (2 ^ prec)) as [Hcarry|Hnc].
  - (* the mantissa reached [2 ^ prec]: one more bit is shifted out *)
    assert (D2 : digits m2' = prec + 1).
    { apply digits_unique. replace (prec + 1 - 1) with prec by lia.
      rewrite Hcarry, Z.pow_add_r by lia. change (2 ^ 1) with 2. lia. }
    assert (F2 : shr_fexp prec emax (Z.pos m2') e0 loc_Exact
                 = (shr_1 {| shr_m := Z.pos m2'; shr_r := false; shr_s := false |},
                    e0 + 1)).
    { unfold shr_fexp. simpl Zdigits2. fold (digits m2'). rewrite D2.
      replace (fexp_ (prec + 1 + e0) - e0) with 1
        by (unfold SpecFloat.fexp; lia).
      reflexivity. }
    rewrite F2.
    destruct (shr_1_shifted {| shr_m := Z.pos m2'; shr_r := false; shr_s := false |}
                ltac:(simpl; lia)) as [S1 _].
    assert (S2 : shr_m (shr_1 {| shr_m := Z.pos m2'; shr_r := false; shr_s := false |})
                 = 2 ^ (prec - 1)).
    { rewrite S1. cbn [shr_m]. change (2 ^ 1) with 2.
      rewrite Hcarry, P2, Z.mul_comm, Z.div_mul by lia. reflexivity. }
    clear S1.
    destruct (2 ^ (prec - 1)) as [|m3|m3] eqn:E3; try lia.
    rewrite S2.
    assert (D3 : digits m3 = prec).
    { apply digits_unique. rewrite <- E3 in *. lia. }
    exists (Z.pos m2'), m3, (e0 + 1), d.
    repeat split; try assumption; try lia.
    + unfold canon. rewrite D3. unfold SpecFloat.fexp. lia.
    + unfold val. rewrite Hcarry, P2.
      replace (e0 + 1 - emin_) with (Z.succ (e0 - emin_)) by lia.
      rewrite Z.pow_succ_r by lia. ring.
  - assert (D2 : digits m2' = prec).
    { apply digits_unique. lia. }
    assert (C2 : canon_ m2' e0).
    { unfold canon. rewrite D2. unfold SpecFloat.fexp. lia. }
    rewrite (shr_fexp_canon m2' e0 C2). cbn [shr_m].
    exists (Z.pos m2'), m2', e0, d.
    repeat split; try assumption; try lia.
Qed.

(** A canonical float whose exponent is at least [e0] sits on the grid of
    step [2 ^ (e0 - emin)]. *)
Lemma val_on_grid m e e0 :
  emin_ <= e0 -> e0 <= e ->
  val_ m e = (Z.pos m * 2 ^ (e - e0)) * 2 ^ (e0 - emin_).
Proof.
  intros H0 H. unfold val. rewrite <- Z.mul_assoc, <- Z.pow_add_r by lia.
  f_equal. f_equal. lia.
Qed.

(** Multiples of the step [g] around a value [q * g + R] with [R < g]. *)
Lemma grid_floor k q g R m2 :
  0 < g -> 0 <= R < g -> k * g <= q * g + R -> q <= m2 -> k * g <= m2 * g.
Proof.
  intros Pg HR Hk Hq.
  assert (k < q + 1).
  { apply (Z.mul_lt_mono_pos_r g); [exact Pg|].
    rewrite Z.mul_add_distr_r. lia. }
  apply Z.mul_le_mono_nonneg_r; lia.
Qed.

Lemma grid_ceil k q g R m2 :
  0 < g -> 0 <= R < g -> q * g + R <= k * g ->
  m2 <= q + 1 -> (R = 0 -> m2 = q) -> m2 <= k.
Proof.
  intros Pg HR Hk Hq H0. destruct (Z.eq_dec R 0) as [E|E].
  - rewrite (H0 E). apply (Z.mul_le_mono_pos_r _ _ g); [exact Pg|lia].
  - assert (q < k) by (apply (Z.mul_lt_mono_pos_r g); [exact Pg|lia]). lia.
Qed.

(** The float a positive mantissa rounds to is canonical and lies between
    the canonical floats that bracket the exact value. *)
Lemma binary_round_sandwich s M e :
  emin_ <= e ->
  exists m3 e3,
    canon_ m3 e3
    /\ binary_round prec emax s M e
       = (if e3 <=? emax - prec then S754_finite s m3 e3 else S754_infinity s)
    /\ (forall mt et, canon_ mt et -> val_ mt et <= val_ M e ->
          val_ mt et <= val_ m3 e3)
    /\ (forall mt et, canon_ mt et -> val_ M e <= val_ mt et ->
          val_ m3 e3 <= val_ mt et /\ e3 <= et).
Proof.
  intros He. destruct (Z.le_gt_cases (fexp_ (digits M + e)) e) as [Hle|Hgt].
  - destruct (binary_round_exact s M e Hle) as (mz & Hc & Hv & Hr).
    exists mz, (fexp_ (digits M + e)). rewrite Hv.
    split; [exact Hc|]. split; [exact Hr|]. split; [auto|].
    intros mt et Ht Hle'. split; [exact Hle'|].
    destruct (Z.le_gt_cases (fexp_ (digits M + e)) et) as [|Hlt]; [assumption|].
    pose proof (val_lt_of_exp mt et mz _ Ht Hc Hlt). lia.
  - destruct (binary_round_shift s M e He Hgt)
      as (m2 & m3 & e3 & d & Hd & Q1 & Hb & Hx & Q2 & Hc & Hv & He3 & Hr).
    set (e0 := fexp_ (digits M + e)) in *.
    exists m3, e3. split; [exact Hc|]. split; [exact Hr|].
    assert (Pu : 0 < 2 ^ (e - emin_)) by (apply Z.pow_pos_nonneg; lia).
    assert (PN : 0 < 2 ^ Z.pos d) by (apply Z.pow_pos_nonneg; lia).
    assert (Hg : 2 ^ (e0 - emin_) = 2 ^ Z.pos d * 2 ^ (e - emin_)).
    { rewrite <- Z.pow_add_r by lia. f_equal. lia. }
    pose proof (Z.div_mod (Z.pos M) (2 ^ Z.pos d) ltac:(lia)) as DM.
    pose proof (Z.mod_pos_bound (Z.pos M) (2 ^ Z.pos d) PN) as BM.
    rewrite Hv.
    set (g := 2 ^ (e0 - emin_)) in *.
    set (q := Z.pos M / 2 ^ Z.pos d) in *.
    set (r := Z.pos M mod 2 ^ Z.pos d) in *.
    assert (HV : val_ M e = q * g + r * 2 ^ (e - emin_)).
    { unfold val. rewrite Hg. rewrite DM at 1. ring. }
    assert (HR : 0 <= r * 2 ^ (e - emin_) < g) by (rewrite Hg; nia).
    assert (HR0 : r * 2 ^ (e - emin_) = 0 -> m2 = q) by (intros; apply Hx; nia).
    rewrite HV. clear HV DM Hx.
    set (R := r * 2 ^ (e - emin_)) in *. clearbody R.
    assert (Pg : 0 < g) by lia.
    split.
    + intros mt et Ht Hle. destruct (Z.le_gt_cases e0 et) as [Hge|Hlt].
      * assert (He0 : emin_ <= e0) by (unfold e0, SpecFloat.fexp; lia).
        rewrite (val_on_grid mt et e0 He0 Hge) in Hle |- *. fold g in Hle |- *.
        apply (grid_floor _ q g R); [exact Pg|exact HR|exact Hle|lia].
      * pose proof (val_below mt et e0 Ht Hlt) as Hb'. fold g in Hb'.
        assert (2 ^ (prec - 1) * g <= m2 * g)
          by (apply Z.mul_le_mono_nonneg_r; lia).
        lia.
    + intros mt et Ht Hle. destruct (Z.le_gt_cases e0 et) as [Hge|Hlt].
      * assert (Hk : Z.pos mt * 2 ^ (et - e0) < 2 ^ prec \/ e0 < et).
        { destruct (Z.eq_dec et e0) as [->|]; [left|right; lia].
          rewrite Z.sub_diag, Z.mul_1_r.
          pose proof (digits_spec mt) as [_ Hu]. pose proof (canon_digits _ _ Ht).
          eapply Z.lt_le_trans; [exact Hu|]. apply Z.pow_le_mono_r; lia. }
        assert (He0 : emin_ <= e0) by (unfold e0, SpecFloat.fexp; lia).
        rewrite (val_on_grid mt et e0 He0 Hge) in Hle |- *. fold g in Hle |- *.
        set (k := Z.pos mt * 2 ^ (et - e0)) in *. clearbody k.
        assert (m2 <= k)
          by (apply (grid_ceil k q g R); [exact Pg|exact HR|exact Hle|lia|exact HR0]).
        split; [apply Z.mul_le_mono_nonneg_r; lia|].
        destruct He3 as [->|[-> Hm2]]; lia.
      * pose proof (val_below mt et e0 Ht Hlt) as Hb'. fold g in Hb'.
        assert (2 ^ (prec - 1) * g <= q * g)
          by (apply Z.mul_le_mono_nonneg_r; lia).
        lia.
Qed.

(** On canonical floats the order of [SFcompare] is the order of values. *)
Lemma lex_of_val_le m1 e1 m2 e2 :
  canon_ m1 e1 -> canon_ m2 e2 -> val_ m1 e1 <= val_ m2 e2 ->
  lex m1 e1 m2 e2 <> Gt /\ lex m2 e2 m1 e1 <> Lt.
Proof.
  intros H1 H2 Hle. unfold lex. rewrite (Z.compare_antisym e1 e2).
  rewrite !Pos.compare_cont_spec, (Pos.compare_antisym m1 m2). simpl.
  destruct (Z.compare_spec e1 e2) as [->|Hlt|Hgt]; simpl.
  - assert (0 < 2 ^ (e2 - emin_))
      by (apply Z.pow_pos_nonneg; pose proof (canon_emin _ _ H2); lia).
    unfold val in Hle.
    assert (Hm : (m1 <= m2)%positive) by (apply Pos2Z.pos_le_pos; nia).
    apply Pos.compare_le_iff in Hm.
    destruct (m1 ?= m2)%positive; simpl; split; congruence.
  - split; discriminate.
  - pose proof (val_lt_of_exp _ _ _ _ H2 H1 Hgt). lia.
Qed.

Lemma bounded_canon m e :
  bounded prec emax m e = true -> canon_ m e /\ e <= emax - prec.
Proof.
  unfold bounded, canonical_mantissa, canon, digits.
  rewrite andb_true_iff, Z.eqb_eq, Z.leb_le. auto.
Qed.

(** The mantissas of an addition, aligned on the smaller exponent. *)
Lemma shl_align_val m e ez :
  emin_ <= ez -> ez <= e ->
  val_ (fst (shl_align m e ez)) ez = val_ m e.
Proof.
  intros H0 H. destruct (shl_align_spec m e ez H) as (mz & -> & Hz).
  cbn [fst]. unfold val. rewrite Hz, <- Z.mul_assoc, <- Z.pow_add_r by lia.
  f_equal. f_equal. lia.
Qed.

Lemma val_add m1 m2 e : val_ (m1 + m2) e = val_ m1 e + val_ m2 e.
Proof. unfold val. rewrite Pos2Z.inj_add. ring. Qed.

(** *** Adding a non-negative float never yields a smaller one *)

Lemma SFadd_nonneg_not_lt (T D : spec_float) :
  SpecFloat.valid_binary prec emax T = true ->
  SpecFloat.valid_binary prec emax D = true ->
  SFleb (S754_zero false) D = true ->
  SFltb (SFadd prec emax T D) T = false.
Proof.
  intros VT VD HD.
  destruct D as [sd|sd| |sd md ed]; try discriminate HD;
    try (destruct sd; try discriminate HD).
  - (* D is -0 *)
    destruct T as [[]|[]| |st mt et]; try reflexivity; unfold SFltb;
      cbn [SFadd]; rewrite SFcompare_refl by discriminate; reflexivity.
  - (* D is +0 *)
    destruct T as [[]|[]| |st mt et]; try reflexivity; unfold SFltb;
      cbn [SFadd]; rewrite SFcompare_refl by discriminate; reflexivity.
  - (* D is +inf *)
    destruct T as [[]|[]| |[] mt et]; reflexivity.
  - (* D is a positive finite float *)
    destruct T as [st|[]| |st mt et]; try reflexivity.
    cbn [SpecFloat.valid_binary] in VT, VD.
    destruct (bounded_canon _ _ VT) as [CT BT].
    destruct (bounded_canon _ _ VD) as [CD BD].
    pose proof (canon_emin _ _ CT). pose proof (canon_emin _ _ CD).
    cbn [SFadd]. set (ez := Z.min et ed).
    assert (Hez : emin_ <= ez) by (unfold ez; lia).
    pose proof (shl_align_val mt et ez Hez ltac:(unfold ez; lia)) as V1.
    pose proof (shl_align_val md ed ez Hez ltac:(unfold ez; lia)) as V2.
    set (m1 := fst (shl_align mt et ez)) in *.
    set (m2 := fst (shl_align md ed ez)) in *.
    assert (PD : 0 < val_ md ed).
    { unfold val. apply Z.mul_pos_pos; [lia|apply Z.pow_pos_nonneg; lia]. }
    cbn [cond_Zopp]. destruct st; cbn [cond_Zopp].
    + (* T is negative *)
      destruct (- Z.pos m1 + Z.pos m2) as [|k|k] eqn:Ek; cbn [binary_normalize].
      * reflexivity.
      * destruct (binary_round_sandwich false k ez Hez) as (m3 & e3 & _ & -> & _).
        destruct (e3 <=? emax - prec); reflexivity.
      * destruct (binary_round_sandwich true k ez Hez)
          as (m3 & e3 & C3 & -> & _ & Hup).
        assert (Vk : val_ k ez <= val_ mt et).
        { rewrite <- V1. unfold val.
          assert (0 < 2 ^ (ez - emin_)) by (apply Z.pow_pos_nonneg; lia). nia. }
        destruct (Hup mt et CT Vk) as [Hv Hle].
        replace (e3 <=? emax - prec) with true by (symmetry; apply Z.leb_le; lia).
        destruct (lex_of_val_le _ _ _ _ C3 CT Hv) as [Hl _].
        unfold SFltb. cbn [SFcompare]. fold (lex m3 e3 mt et).
        unfold lex in *. destruct (e3 ?= et); try congruence.
        destruct (Pos.compare_cont Eq m3 mt); simpl; congruence.
    + (* T is positive *)
      change (Z.pos m1 + Z.pos m2) with (Z.pos (m1 + m2)). cbn [binary_normalize].
      destruct (binary_round_sandwich false (m1 + m2) ez Hez)
        as (m3 & e3 & C3 & -> & Hlow & _).
      assert (Hv : val_ mt et <= val_ m3 e3).
      { apply Hlow; [exact CT|]. rewrite val_add, V1, V2. lia. }
      destruct (e3 <=? emax - prec); [|reflexivity].
      destruct (lex_of_val_le _ _ _ _ CT C3 Hv) as [_ Hl].
      unfold SFltb. cbn [SFcompare]. fold (lex m3 e3 mt et).
      destruct (lex m3 e3 mt et); congruence.
Qed.

End Rounding.

(** * Facts about binary64 arithmetic

    The primitive operations are specified by the Standard Library through
    [Prim2SF] and the functions of [SpecFloat]; the facts below are read off
    those specifications. *)

Section FloatFacts.

Lemma is_nan_spec (a : float) :
  is_nan a = true <-> Prim2SF a = S754_nan.
Proof.
  unfold is_nan. rewrite FloatAxioms.eqb_spec. unfold SFeqb. split.
  - destruct (Prim2SF a) eqn:E; try reflexivity;
      rewrite SFcompare_refl by discriminate; discriminate.
  - intros ->. reflexivity.
Qed.

(** A finite float is a zero or a signed mantissa and exponent. *)
Lemma is_finite_cases (a : float) :
  is_finite a = true ->
  (exists s, Prim2SF a = S754_zero s)
  \/ (exists s m e, Prim2SF a = S754_finite s m e).
Proof.
  unfold is_finite, is_infinity, is_nan.
  rewrite !FloatAxioms.eqb_spec, FloatAxioms.abs_spec.
  destruct (Prim2SF a) as [s|s| |s m e] eqn:E.
  - intros _. left. eauto.
  - destruct s; vm_compute; discriminate.
  - vm_compute; discriminate.
  - intros _. right. eauto.
Qed.

(** Adding a zero of either sign to a non-zero finite float returns it. *)
Lemma add_zero_r (a z : float) s m e s' :
  Prim2SF a = S754_finite s m e -> Prim2SF z = S754_zero s' -> a + z = a.
Proof.
  intros Ha Hz. apply Prim2SF_inj.
  rewrite FloatAxioms.add_spec, Ha, Hz. reflexivity.
Qed.

(** Where [a < b] fails, [b <= a] holds unless one of them is NaN. *)
Lemma ltb_false_leb (a b : float) :
  is_nan a = false -> is_nan b = false -> (a <? b) = false -> (b <=? a) = true.
Proof.
  intros Ha Hb. rewrite FloatAxioms.ltb_spec, FloatAxioms.leb_spec. unfold SFltb, SFleb.
  destruct (SFcompare (Prim2SF a) (Prim2SF b)) as [c|] eqn:E.
  - rewrite (SFcompare_antisym _ _ _ E). destruct c; simpl; congruence.
  - exfalso.
    assert (Prim2SF a <> S754_nan) by (rewrite <- is_nan_spec; congruence).
    assert (Prim2SF b <> S754_nan) by (rewrite <- is_nan_spec; congruence).
    destruct (Prim2SF a) as [[]|[]| |[]], (Prim2SF b) as [[]|[]| |[]];
      simpl in E; congruence.
Qed.

(** [z == 0.0] holds of the two zeros only. *)
Lemma eqb_zero_cases (z : float) :
  (z =? 0.0) = true -> exists s, Prim2SF z = S754_zero s.
Proof.
  rewrite FloatAxioms.eqb_spec. unfold SFeqb.
  destruct (Prim2SF z) as [s|[]| |[] m e]; simpl; try discriminate; eauto.
Qed.

(** A zero times a finite float is a zero. *)
Lemma zero_mul_finite (z dt : float) :
  (z =? 0.0) = true -> is_finite dt = true ->
  exists s, Prim2SF (z * dt) = S754_zero s.
Proof.
  intros Hz H. rewrite FloatAxioms.mul_spec.
  destruct (eqb_zero_cases z Hz) as [sz ->].
  destruct (is_finite_cases dt H) as [[s ->]|(s & m & e & ->)];
    simpl; eauto.
Qed.

Lemma leb_nan_r (a b : float) : is_nan b = true -> (a <=? b) = false.
Proof.
  rewrite is_nan_spec, FloatAxioms.leb_spec. intros ->. unfold SFleb.
  destruct (Prim2SF a); reflexivity.
Qed.

(** Adding a non-negative float never gives a smaller float: rounding to
    nearest cannot cross the first operand, which is representable. *)
Lemma add_nonneg_not_lt (t dt : float) :
  geb dt 0.0 = true -> (t + dt <? t) = false.
Proof.
  unfold geb. rewrite FloatAxioms.leb_spec, FloatAxioms.ltb_spec, FloatAxioms.add_spec.
  intros H. apply SFadd_nonneg_not_lt.
  - reflexivity.
  - apply Prim2SF_valid.
  - apply Prim2SF_valid.
  - exact H.
Qed.

End FloatFacts.

(** * CollisionObject: the probe test *)

(** C1: for two objects of the store, [A.is_colliding_with_object(B)] returns
    true exactly when [B.lower_x_bound <= A.x - B.x <= B.higher_x_bound] and
    [B.lower_y_bound <= A.y - B.y <= B.higher_y_bound], only the bounds of [B]
    being read; the call returns normally and leaves the whole store, hence
    both objects, as it found it. *)
Theorem is_colliding_with_object_iff
    (w : World) (self other : ref) (A B : object) :
  heap w !! self = Some A ->
  heap w !! other = Some B ->
  let a := fields A in
  let b := fields B in
  let dx := CollisionObject.x a - CollisionObject.x b in
  let dy := CollisionObject.y a - CollisionObject.y b in
  exists r : bool,
    is_colliding_with_object self other w = (Ok r, w)
    /\ (r = true <->
        ((CollisionObject.lower_x_bound b <=? dx) = true
         /\ (dx <=? CollisionObject.higher_x_bound b) = true)
        /\ ((CollisionObject.lower_y_bound b <=? dy) = true
            /\ (dy <=? CollisionObject.higher_y_bound b) = true)).
Proof.
  intros HA HB a b dx dy.
  exists (CollisionObject.is_colliding_with_object a b). split.
  - unfold is_colliding_with_object, bind, deref, ret. rewrite HA, HB. reflexivity.
  - unfold CollisionObject.is_colliding_with_object. fold dx dy.
    destruct (CollisionObject.lower_x_bound b <=? dx),
             (dx <=? CollisionObject.higher_x_bound b),
             (CollisionObject.lower_y_bound b <=? dy),
             (dy <=? CollisionObject.higher_y_bound b); simpl; intuition congruence.
Qed.

Lemma is_colliding_with_object_iff_witness :
  exists r : bool,
    is_colliding_with_object 0%nat 1%nat two_object_world = (Ok r, two_object_world)
    /\ (r = true <->
        ((0.0 <=? 0.5 - 0.0) = true /\ (0.5 - 0.0 <=? 1.0) = true)
        /\ ((0.0 <=? 0.0 - 0.0) = true /\ (0.0 - 0.0 <=? 1.0) = true)).
Proof.
  apply (is_colliding_with_object_iff two_object_world 0%nat 1%nat
           (Plain probe_point) (Plain unit_box)); reflexivity.
Defined.

(** C9: the probe is a function of the other object's bounds and of the
    offset between the two positions (two pairs of objects that agree on
    these get the same answer), and it is not symmetric: some [A] collides
    with [B] while [B] does not collide with [A]. *)
Theorem probe_depends_on_offset_and_is_asymmetric :
  (forall A A' B B' : CollisionObject.t,
      CollisionObject.bounds B = CollisionObject.bounds B' ->
      CollisionObject.x A - CollisionObject.x B
        = CollisionObject.x A' - CollisionObject.x B' ->
      CollisionObject.y A - CollisionObject.y B
        = CollisionObject.y A' - CollisionObject.y B' ->
      CollisionObject.is_colliding_with_object A B
        = CollisionObject.is_colliding_with_object A' B')
  /\ (exists A B : CollisionObject.t,
        CollisionObject.is_colliding_with_object A B = true
        /\ CollisionObject.is_colliding_with_object B A = false).
Proof.
  split.
  - intros A A' B B' Hb Hx Hy.
    unfold CollisionObject.bounds in Hb. injection Hb as H1 H2 H3 H4.
    unfold CollisionObject.is_colliding_with_object.
    rewrite Hx, Hy, H1, H2, H3, H4. reflexivity.
  - exists probe_point, unit_box. split; vm_compute; reflexivity.
Qed.

Lemma probe_depends_on_offset_witness :
  CollisionObject.is_colliding_with_object probe_point unit_box
  = CollisionObject.is_colliding_with_object
      (CollisionObject.__init__ 1.5 2.0 0.0 0.0 0.0 0.0)
      (CollisionObject.__init__ 1.0 2.0 0.0 1.0 0.0 1.0).
Proof.
  apply (proj1 probe_depends_on_offset_and_is_asymmetric); reflexivity.
Defined.

(** * Player: one tick of [update] *)

Section PlayerUpdate.

Variable dt : float.
Variable p : Player.t.
Variable c : Controller.t.

Lemma update_jump_branch :
  Controller.jump_action_queued c = true ->
  Player._is_in_air p = false ->
  Player.update dt p c
  = (Player.Build
       (CollisionObject.set_y
          (py_max (integrated_y dt p + (INITIAL_JUMP_SPEED_IN_Y - GRAVITY * dt) * dt)
                  GROUND_Y_LEVEL)
          (CollisionObject.set_x (Player.x p + fst (Player.speed p) * dt)
                                 (Player.base p)))
       (fst (Player.speed p), INITIAL_JUMP_SPEED_IN_Y - GRAVITY * dt)
       (if geb (integrated_y dt p) GROUND_Y_LEVEL then true else false),
     Controller.Build false).
Proof.
  unfold integrated_y. destruct p as [b [vx vy] air], c as [q]. cbn.
  intros -> ->. reflexivity.
Qed.

Lemma update_airborne_branch :
  Player._is_in_air p = true ->
  Player.update dt p c
  = (Player.Build
       (CollisionObject.set_y
          (py_max (integrated_y dt p + (snd (Player.speed p) - GRAVITY * dt) * dt)
                  GROUND_Y_LEVEL)
          (CollisionObject.set_x (Player.x p + fst (Player.speed p) * dt)
                                 (Player.base p)))
       (fst (Player.speed p), snd (Player.speed p) - GRAVITY * dt)
       (if geb (integrated_y dt p) GROUND_Y_LEVEL then true else false),
     c).
Proof.
  unfold integrated_y. destruct p as [b [vx vy] air], c as [q]. cbn.
  intros ->. destruct q; reflexivity.
Qed.

(** Whatever the branch, the last statement stores a [max(_, GROUND_Y_LEVEL)]. *)
Lemma update_y_is_max :
  exists v : float,
    Player.y (fst (Player.update dt p c)) = py_max v GROUND_Y_LEVEL.
Proof.
  unfold Player.update. cbn.
  destruct (Controller.jump_action_queued c && negb (Player._is_in_air p));
    cbn; [eexists; reflexivity|].
  destruct (Player._is_in_air p); cbn; eexists; reflexivity.
Qed.

End PlayerUpdate.

(** [max(v, GROUND_Y_LEVEL)] is at least the ground level unless it is NaN. *)
Lemma py_max_ground (v : float) :
  geb (py_max v GROUND_Y_LEVEL) GROUND_Y_LEVEL
  = negb (is_nan (py_max v GROUND_Y_LEVEL)).
Proof.
  unfold py_max, geb. destruct (v <? GROUND_Y_LEVEL) eqn:E.
  - reflexivity.
  - destruct (is_nan v) eqn:N; simpl.
    + apply leb_nan_r, N.
    + apply ltb_false_leb; [exact N|reflexivity|exact E].
Qed.

(** C3 as stated fails: a grounded player with a jump queued leaves the tick
    with [vy = 0.3 - 0.2 * 0.1], not [INITIAL_JUMP_SPEED_IN_Y]. *)
Lemma jump_tick_speed_counterexample :
  let p := Player.__init__ 5.0 GROUND_Y_LEVEL in
  let c := Controller.Build true in
  let p' := fst (Player.update 0.1 p c) in
  Player.y p = GROUND_Y_LEVEL
  /\ snd (Player.speed p) = 0.0
  /\ Player._is_in_air p = false
  /\ Controller.jump_action_queued c = true
  /\ snd (Player.speed p') = 0.27999999999999997
  /\ (snd (Player.speed p') =? INITIAL_JUMP_SPEED_IN_Y) = false.
Proof. vm_compute. repeat split; reflexivity. Qed.

(** C3, amended: starting a tick grounded at [y = GROUND_Y_LEVEL] with
    [vy = 0] and a jump queued, after [update] with a finite [dt] the vertical
    speed is [INITIAL_JUMP_SPEED_IN_Y - GRAVITY * dt] (gravity acts in the same
    tick), the airborne flag is true and the queued jump is cleared. *)
Theorem jump_tick (dt : float) (p : Player.t) (c : Controller.t) :
  is_finite dt = true ->
  Player.y p = GROUND_Y_LEVEL ->
  (snd (Player.speed p) =? 0.0) = true ->
  Player._is_in_air p = false ->
  Controller.jump_action_queued c = true ->
  let p' := fst (Player.update dt p c) in
  let c' := snd (Player.update dt p c) in
  snd (Player.speed p') = INITIAL_JUMP_SPEED_IN_Y - GRAVITY * dt
  /\ Player._is_in_air p' = true
  /\ Controller.jump_action_queued c' = false.
Proof.
  intros Hdt Hy Hv Ha Hq. cbv zeta.
  rewrite (update_jump_branch dt p c Hq Ha). cbn.
  repeat split.
  destruct (zero_mul_finite _ _ Hv Hdt) as [s Hs].
  rewrite Hy, (add_zero_r GROUND_Y_LEVEL _ true 7205759403792794 (-53) s);
    [reflexivity|reflexivity|exact Hs].
Qed.

Lemma jump_tick_witness :
  snd (Player.speed (fst (Player.update 0.1 (Player.__init__ 5.0 GROUND_Y_LEVEL)
                                        (Controller.Build true))))
    = INITIAL_JUMP_SPEED_IN_Y - GRAVITY * 0.1
  /\ Player._is_in_air (fst (Player.update 0.1 (Player.__init__ 5.0 GROUND_Y_LEVEL)
                                           (Controller.Build true))) = true
  /\ Controller.jump_action_queued
       (snd (Player.update 0.1 (Player.__init__ 5.0 GROUND_Y_LEVEL)
                           (Controller.Build true))) = false.
Proof.
  apply (jump_tick 0.1 (Player.__init__ 5.0 GROUND_Y_LEVEL) (Controller.Build true));
    reflexivity.
Defined.

(** C4 as stated fails: an airborne player whose [y] is above the ground at
    the check keeps the flag set. *)
Lemma airborne_flag_counterexample :
  let p := Player.set_is_in_air true (Player.__init__ 5.0 0.0) in
  let p' := fst (Player.update 0.1 p (Controller.Build false)) in
  Player._is_in_air p = true
  /\ geb (Player.y p + snd (Player.speed p) * 0.1) GROUND_Y_LEVEL = true
  /\ Player._is_in_air p' = true.
Proof. vm_compute. repeat split; reflexivity. Qed.

(** C4, amended: when the player is airborne, [update] applies gravity,
    [vy -= GRAVITY * dt], and leaves the airborne flag equal to the test
    [y >= GROUND_Y_LEVEL] made on the position just integrated: the flag stays
    set while [y >= GROUND_Y_LEVEL] and is cleared otherwise. *)
Theorem airborne_tick (dt : float) (p : Player.t) (c : Controller.t) :
  Player._is_in_air p = true ->
  let p' := fst (Player.update dt p c) in
  snd (Player.speed p') = snd (Player.speed p) - GRAVITY * dt
  /\ Player._is_in_air p'
     = geb (Player.y p + snd (Player.speed p) * dt) GROUND_Y_LEVEL.
Proof.
  intros Ha. cbv zeta. rewrite (update_airborne_branch dt p c Ha). cbn.
  split; [reflexivity|].
  unfold integrated_y, geb.
  match goal with |- (if ?b then _ else _) = _ => destruct b end; reflexivity.
Qed.

Lemma airborne_tick_witness :
  let p := Player.set_is_in_air true (Player.__init__ 5.0 0.0) in
  let p' := fst (Player.update 0.1 p (Controller.Build false)) in
  snd (Player.speed p') = 0.0 - GRAVITY * 0.1
  /\ Player._is_in_air p' = geb (0.0 + 0.0 * 0.1) GROUND_Y_LEVEL.
Proof.
  apply (airborne_tick 0.1 (Player.set_is_in_air true (Player.__init__ 5.0 0.0))
                       (Controller.Build false)); reflexivity.
Defined.

(** C10 as stated fails: with finite inputs whose products overflow, the
    value handed to [max] is [inf + -inf = nan], [max(nan, GROUND_Y_LEVEL)] is
    [nan], and [nan >= GROUND_Y_LEVEL] is false. *)
Lemma ground_clamp_counterexample :
  let dt := 1e160 in
  let p := Player.set_speed1 1e200 (Player.__init__ 0.0 0.0) in
  let p' := fst (Player.update dt p (Controller.Build true)) in
  geb dt 0.0 = true
  /\ is_finite (Player.y p) = true
  /\ is_finite (snd (Player.speed p)) = true
  /\ is_nan (Player.y p') = true
  /\ geb (Player.y p') GROUND_Y_LEVEL = false.
Proof. vm_compute. repeat split; reflexivity. Qed.

(** C10, amended: after every call to [Player.update] the player's [y] is
    either NaN or satisfies [y >= GROUND_Y_LEVEL]; the final clamp bounds
    every number, and lets through only the NaN that the integration may
    produce. *)
Theorem y_at_least_ground_unless_nan
    (dt : float) (p : Player.t) (c : Controller.t) :
  let p' := fst (Player.update dt p c) in
  geb (Player.y p') GROUND_Y_LEVEL = negb (is_nan (Player.y p')).
Proof.
  cbv zeta. destruct (update_y_is_max dt p c) as [v ->]. apply py_max_ground.
Qed.

(** * ObstacleManager and Obstacle *)

(** A deque is not ordered against an integer. *)
Lemma deque_le_int (d : list ref) (n : Z) :
  py_le (VDeque d) (VInt n) = Raise TypeError.
Proof. reflexivity. Qed.

(** [_set_random_position] fails on its first line, before it reads or moves
    anything. *)
Lemma _set_random_position_raises (fuel : nat) (curr_obstacle : ref) (w : World) :
  ObstacleManager._set_random_position fuel curr_obstacle w = (Raise TypeError, w).
Proof. reflexivity. Qed.

Lemma add_new_obstacle_eq (fuel : nat) (obstacle : ref) (w : World) :
  ObstacleManager.add_new_obstacle fuel obstacle w
  = (Raise TypeError, with_obstacles (obstacles w ++ [obstacle]) w).
Proof. reflexivity. Qed.

(** Once an obstacle is appended it is the tail: the [cls.obstacles[-1]] that
    [_set_random_position] would read is the obstacle being placed. *)
Lemma deque_last_after_append (obstacle : ref) (w : World) :
  (deque_append obstacle ;;; deque_last) w
  = (Ok obstacle, with_obstacles (obstacles w ++ [obstacle]) w).
Proof.
  unfold bind, deque_append, deque_last, modify, gets. cbn.
  rewrite last_snoc. reflexivity.
Qed.

(** [check_for_destroy] changes nothing, whichever branch it takes. *)
Lemma check_for_destroy_store (self : ref) (w : World) :
  snd (Obstacle.check_for_destroy self w) = w.
Proof.
  unfold Obstacle.check_for_destroy, getattr_x, bind, deref, gets, ret.
  destruct (heap w !! self); simpl; [|reflexivity].
  match goal with |- context [if ?b then _ else _] => destruct b end; reflexivity.
Qed.

(** Called on its own with the obstacle, the helper does place it at
    [player.x + FIRST_OBSTACLE_OFFSET_IN_X] and appends it. *)
Lemma _simple_set_obstacle_at_the_right_of_player_eq
    (curr_obstacle r : ref) (w : World) (pl ob : object) :
  player (GameState_class w) = Some r ->
  heap w !! r = Some pl ->
  heap w !! curr_obstacle = Some ob ->
  ObstacleManager._simple_set_obstacle_at_the_right_of_player curr_obstacle w
  = (Ok tt,
     with_obstacles (obstacles w ++ [curr_obstacle])
       (with_heap
          (<[curr_obstacle :=
               assign_x (CollisionObject.x (fields pl)
                         + ObstacleManager.FIRST_OBSTACLE_OFFSET_IN_X) ob]> (heap w))
          w)).
Proof.
  intros Hp Hr Ho.
  unfold ObstacleManager._simple_set_obstacle_at_the_right_of_player,
    GameState.get_player, getattr_x_opt, getattr_x, setattr_x, deque_append,
    bind, gets, deref, modify, ret.
  simpl. rewrite Hp. simpl. rewrite Hr. simpl. rewrite Ho. reflexivity.
Qed.

(** C2: whatever the obstacle, the store and the fuel, [add_new_obstacle]
    appends the obstacle and then raises [TypeError] from the first line of
    [_set_random_position]: no position is assigned, the heap is untouched. *)
Theorem add_new_obstacle_raises_TypeError
    (fuel : nat) (obstacle : ref) (w : World) :
  let '(res, w') := ObstacleManager.add_new_obstacle fuel obstacle w in
  res = Raise TypeError
  /\ obstacles w' = obstacles w ++ [obstacle]
  /\ heap w' = heap w
  /\ randn_next w' = randn_next w.
Proof. rewrite add_new_obstacle_eq. repeat split. Qed.

(** C6: with an empty sequence and the player at [x = 5.0], registering the
    first obstacle raises [TypeError] and leaves it at the [x] it was built
    with, not at [5.8]; the helper that would place it there is never
    reached, although called directly it does assign [5.0 + 0.8 = 5.8]. *)
Theorem first_obstacle_is_not_placed :
  let '(res, w') := ObstacleManager.add_new_obstacle 8 1%nat first_spawn_world in
  obstacles first_spawn_world = []
  /\ res = Raise TypeError
  /\ xs_of w' (obstacles w') = [Some 0.0]
  /\ (0.0 =? 5.8) = false
  /\ xs_of (snd (ObstacleManager._simple_set_obstacle_at_the_right_of_player
                   1%nat first_spawn_world)) [1%nat] = [Some 5.8].
Proof. vm_compute. repeat split; reflexivity. Qed.

(** C7: two successive [add_new_obstacle] calls, each ending in [TypeError]
    after its append, leave the sequence [[1.0, 0.0]]: it is not increasing. *)
Theorem two_additions_not_increasing :
  let '(res1, w1) := ObstacleManager.add_new_obstacle 8 1%nat two_spawn_world in
  let '(res2, w2) := ObstacleManager.add_new_obstacle 8 2%nat w1 in
  res1 = Raise TypeError
  /\ res2 = Raise TypeError
  /\ obstacles w2 = [1%nat; 2%nat]
  /\ xs_of w2 (obstacles w2) = [Some 1.0; Some 0.0]
  /\ (1.0 <? 0.0) = false.
Proof. vm_compute. repeat split; reflexivity. Qed.

(** C5: an obstacle at [x = -2.0 <= 0.0 - 1.0] heads the sequence;
    [check_for_destroy] returns normally and the obstacle is still there. *)
Theorem expired_obstacle_is_kept :
  let '(res, w') := Obstacle.check_for_destroy 1%nat expired_world in
  xs_of expired_world (obstacles expired_world) = [Some (-2.0)]
  /\ (-2.0 <=? camera_position (GameState_class expired_world)
              - DESTRUCT_OFFSET_IN_X) = true
  /\ res = Ok tt
  /\ obstacles w' = [1%nat]
  /\ w' = expired_world.
Proof.
  pose proof (check_for_destroy_store 1%nat expired_world) as H.
  destruct (Obstacle.check_for_destroy 1%nat expired_world) as [res w'] eqn:E.
  simpl in H. subst w'.
  assert (res = Ok tt)
    by (apply (f_equal fst) in E; simpl in E; subst res; vm_compute; reflexivity).
  repeat split; try assumption; vm_compute; reflexivity.
Qed.

(** * GameState: the bookkeeping of a tick *)

Lemma GameState_update_eq
    (dt : float) (self : GameState.t) (w : World) (r : ref) (ob : object) :
  default (player (GameState_class w)) (GameState.own_player self) = Some r ->
  heap w !! r = Some ob ->
  GameState.update dt self w
  = (Ok (GameState.Build
           (Some (CollisionObject.x (fields ob)))
           (Some (default (total_time_played (GameState_class w))
                          (GameState.own_total_time_played self) + dt))
           (GameState.own_player self)),
     w).
Proof.
  intros Hp Hr.
  unfold GameState.update, GameState.get_player, GameState.get_total_time_played,
    getattr_x_opt, getattr_x, bind, gets, deref, ret.
  cbn [GameState.own_player GameState.own_total_time_played
       GameState.own_camera_position].
  rewrite Hp. cbn iota. rewrite Hr. reflexivity.
Qed.

(** C8 as stated fails: the three ticks [0.1], [0.2], [0.05] from [0.0] leave
    [total_time_played] at [0.35000000000000003], which is not [0.35]. *)
Lemma three_ticks_total_counterexample :
  let '(res, _) := run_ticks [0.1; 0.2; 0.05] GameState.__new__ first_spawn_world in
  total_time_played (GameState_class first_spawn_world) = 0.0
  /\ (GameState.own_total_time_played <$>
        match res with Ok s => Some s | _ => None end)
     = Some (Some 0.35000000000000003)
  /\ (0.35000000000000003 =? 0.35) = false.
Proof. vm_compute. repeat split; reflexivity. Qed.

(** C8, amended: for a [GameState] whose player is set, [update(dt)] returns
    normally and changes nothing but the instance: afterwards
    [camera_position] is [player.x] and [total_time_played] is the binary64
    sum of its previous value and [dt]; for [dt >= 0] it is never smaller than
    before; and over the ticks [0.1], [0.2], [0.05] from [0.0] it reaches
    [0.35000000000000003], that is [0.35] up to rounding. *)
Theorem GameState_update_tick
    (dt : float) (self : GameState.t) (w : World) (r : ref) (ob : object) :
  default (player (GameState_class w)) (GameState.own_player self) = Some r ->
  heap w !! r = Some ob ->
  let total := default (total_time_played (GameState_class w))
                       (GameState.own_total_time_played self) in
  (exists self',
      GameState.update dt self w = (Ok self', w)
      /\ GameState.own_camera_position self' = Some (CollisionObject.x (fields ob))
      /\ GameState.own_total_time_played self' = Some (total + dt)
      /\ (geb dt 0.0 = true -> (total + dt <? total) = false))
  /\ (total = 0.0 ->
      exists s,
        run_ticks [0.1; 0.2; 0.05] self w = (Ok s, w)
        /\ GameState.own_total_time_played s = Some 0.35000000000000003).
Proof.
  intros Hp Hr total. split.
  - eexists. split; [apply (GameState_update_eq dt self w r ob Hp Hr)|].
    cbn [GameState.own_camera_position GameState.own_total_time_played].
    repeat split. apply add_nonneg_not_lt.
  - intros H0. cbn [run_ticks]. unfold bind.
    rewrite (GameState_update_eq 0.1 self w r ob Hp Hr).
    rewrite (GameState_update_eq 0.2
               (GameState.Build _ _ (GameState.own_player self)) w r ob Hp Hr).
    rewrite (GameState_update_eq 0.05
               (GameState.Build _ _ (GameState.own_player self)) w r ob Hp Hr).
    eexists. split; [reflexivity|].
    cbn [GameState.own_total_time_played default from_option id].
    fold total. rewrite H0. reflexivity.
Qed.

Lemma GameState_update_tick_witness :
  (exists self',
      GameState.update 0.1 GameState.__new__ first_spawn_world
      = (Ok self', first_spawn_world)
      /\ GameState.own_camera_position self' = Some 5.0
      /\ GameState.own_total_time_played self' = Some (0.0 + 0.1)
      /\ (geb 0.1 0.0 = true -> (0.0 + 0.1 <? 0.0) = false))
  /\ (0.0 = 0.0 ->
      exists s,
        run_ticks [0.1; 0.2; 0.05] GameState.__new__ first_spawn_world
        = (Ok s, first_spawn_world)
        /\ GameState.own_total_time_played s = Some 0.35000000000000003).
Proof.
  apply (GameState_update_tick 0.1 GameState.__new__ first_spawn_world 0%nat
           (APlayer (Player.__init__ 5.0 GROUND_Y_LEVEL))); reflexivity.
Defined.


(** * More facts about binary64 comparison and multiplication *)

Section MoreFloatFacts.

(** [a <= b] and [b <= a] together are [a == b]. *)
Lemma leb_both_eqb (a b : float) :
  (a <=? b) && (b <=? a) = (a =? b).
Proof.
  rewrite !FloatAxioms.leb_spec, FloatAxioms.eqb_spec. unfold SFleb, SFeqb.
  destruct (SFcompare (Prim2SF a) (Prim2SF b)) as [c|] eqn:E.
  - rewrite (SFcompare_antisym _ _ _ E). destruct c; reflexivity.
  - reflexivity.
Qed.

Lemma eqb_leb (a b : float) :
  (a =? b) = true -> (a <=? b) = true /\ (b <=? a) = true.
Proof.
  rewrite <- leb_both_eqb. apply andb_true_iff.
Qed.

Lemma ltb_nan_l (a b : float) : is_nan a = true -> (a <? b) = false.
Proof.
  rewrite is_nan_spec, FloatAxioms.ltb_spec. intros ->. reflexivity.
Qed.

Lemma add_nan_l (a b : float) : is_nan a = true -> is_nan (a + b) = true.
Proof.
  rewrite !is_nan_spec, FloatAxioms.add_spec. intros ->. reflexivity.
Qed.

Lemma add_nan_r (a b : float) : is_nan b = true -> is_nan (a + b) = true.
Proof.
  rewrite !is_nan_spec, FloatAxioms.add_spec. intros ->.
  destruct (Prim2SF a); reflexivity.
Qed.

Lemma leb_refl (a : float) : is_nan a = false -> (a <=? a) = true.
Proof.
  intros H. rewrite FloatAxioms.leb_spec. unfold SFleb.
  rewrite SFcompare_refl; [reflexivity|].
  intros E. apply is_nan_spec in E. congruence.
Qed.

Lemma leb_not_ltb (a b : float) : (a <=? b) = true -> (b <? a) = false.
Proof.
  rewrite FloatAxioms.leb_spec, FloatAxioms.ltb_spec. unfold SFleb, SFltb.
  destruct (SFcompare (Prim2SF a) (Prim2SF b)) as [c|] eqn:E; [|discriminate].
  rewrite (SFcompare_antisym _ _ _ E). destruct c; simpl; congruence.
Qed.

End MoreFloatFacts.

(** Splits every integer and positive comparison of the goal into its cases. *)
Ltac compare_cases :=
  rewrite ?Pos.compare_cont_spec; unfold Pos.switch_Eq;
  repeat match goal with
         | |- context [(?a ?= ?b)%Z] =>
             destruct (Z.compare_spec a b); try subst
         | |- context [(?a ?= ?b)%positive] =>
             destruct (Pos.compare_spec a b); try subst
         end;
  simpl; try congruence; try lia.

Lemma SFleb_trans (a b c : spec_float) :
  SFleb a b = true -> SFleb b c = true -> SFleb a c = true.
Proof.
  unfold SFleb.
  destruct a as [[]|[]| |[] ma ea], b as [[]|[]| |[] mb eb], c as [[]|[]| |[] mc ec];
    simpl; try discriminate; try reflexivity; compare_cases.
Qed.

Lemma leb_trans (a b c : float) :
  (a <=? b) = true -> (b <=? c) = true -> (a <=? c) = true.
Proof. rewrite !FloatAxioms.leb_spec. apply SFleb_trans. Qed.

Section RoundingSign.
Local Open Scope Z_scope.

Lemma shr_nonneg (mrs : shr_record) (e n : Z) :
  0 <= shr_m mrs -> 0 <= shr_m (fst (shr mrs e n)).
Proof.
  intros H. unfold shr. destruct n as [|p|p]; cbn [fst]; try exact H.
  apply (shifted_nonneg (Z.pos p) mrs); [lia|exact H|].
  apply iter_pos_shifted, H.
Qed.

(** Rounding a positive mantissa gives a zero, a finite float or an infinity
    of the sign asked for, never NaN. *)
Lemma binary_round_aux_sign (prec emax : Z) (s : bool) (m : positive) (e : Z) :
  match binary_round_aux prec emax s (Z.pos m) e loc_Exact with
  | S754_nan => False
  | S754_zero s' | S754_infinity s' | S754_finite s' _ _ => s' = s
  end.
Proof.
  unfold binary_round_aux, shr_fexp.
  set (r0 := shr_record_of_loc (Z.pos m) loc_Exact).
  pose proof (shr_nonneg r0 e
                (SpecFloat.fexp prec emax (Zdigits2 (Z.pos m) + e) - e)
                ltac:(simpl; lia)) as H1.
  destruct (shr r0 e _) as [mrs1 e1]. cbn [fst] in H1.
  destruct (round_nearest_even_bounds mrs1) as [[Hb _] _].
  set (m2 := round_nearest_even (shr_m mrs1) (loc_of_shr_record mrs1)) in *.
  pose proof (shr_nonneg (shr_record_of_loc m2 loc_Exact) e1
                (SpecFloat.fexp prec emax (Zdigits2 m2 + e1) - e1)
                ltac:(simpl; lia)) as H2.
  destruct (shr (shr_record_of_loc m2 loc_Exact) e1 _) as [mrs2 e2].
  cbn [fst] in H2.
  destruct (shr_m mrs2) as [|q|q]; try lia; [reflexivity|].
  destruct (e2 <=? emax - prec); reflexivity.
Qed.

End RoundingSign.

(** The product of two non-negative floats is non-negative or NaN. *)
Lemma mul_nonneg (a b : float) :
  geb a 0.0 = true -> geb b 0.0 = true ->
  is_nan (a * b) = true \/ geb (a * b) 0.0 = true.
Proof.
  unfold geb. rewrite is_nan_spec, !FloatAxioms.leb_spec, FloatAxioms.mul_spec.
  change (Prim2SF 0.0) with (S754_zero false).
  destruct (Prim2SF a) as [sa|[]| |[] ma ea]; try discriminate;
    destruct (Prim2SF b) as [sb|[]| |[] mb eb]; try discriminate; intros _ _;
    try (right; reflexivity); try (left; reflexivity).
  right. unfold SF64mul, SFmul.
  pose proof (binary_round_aux_sign prec emax (xorb false false)
                (ma * mb) (ea + eb)) as H.
  destruct (binary_round_aux _ _ _ _ _ _) as [s|s| |s m e]; try contradiction;
    cbn in H; subst s; reflexivity.
Qed.

(** * Player: what every tick keeps and changes *)

(** X1: [update] moves [x] by [speed[0] * dt] on every path and never touches
    the horizontal speed or the four bounds. *)
Theorem update_frame (dt : float) (p : Player.t) (c : Controller.t) :
  let p' := fst (Player.update dt p c) in
  Player.x p' = Player.x p + fst (Player.speed p) * dt
  /\ fst (Player.speed p') = fst (Player.speed p)
  /\ CollisionObject.bounds (Player.base p') = CollisionObject.bounds (Player.base p).
Proof.
  destruct p as [b [vx vy] air], c as [q]. cbv zeta. unfold Player.update. cbn.
  destruct q, air; cbn; repeat split; reflexivity.
Qed.

(** X2: after [update] a jump is still queued exactly when one was queued and
    the player was airborne: a jump asked for in the air is kept for later, a
    jump asked for on the ground is consumed, and none is ever created. *)
Theorem update_consumes_jump_on_ground
    (dt : float) (p : Player.t) (c : Controller.t) :
  Controller.jump_action_queued (snd (Player.update dt p c))
  = Controller.jump_action_queued c && Player._is_in_air p.
Proof.
  destruct p as [b [vx vy] air], c as [q]. unfold Player.update. cbn.
  destruct q, air; reflexivity.
Qed.

(** X3: after [update] the player is airborne exactly when it was airborne or
    started a jump, and the position integrated at the start of the tick is
    not below the ground. *)
Theorem update_airborne_flag (dt : float) (p : Player.t) (c : Controller.t) :
  Player._is_in_air (fst (Player.update dt p c))
  = (Controller.jump_action_queued c || Player._is_in_air p)
    && geb (integrated_y dt p) GROUND_Y_LEVEL.
Proof.
  destruct p as [b [vx vy] air], c as [q]. unfold Player.update, integrated_y. cbn.
  unfold geb, Player.y. cbn.
  destruct q, air; cbn; try reflexivity;
    match goal with |- context [?u <=? ?v] => destruct (u <=? v) end; reflexivity.
Qed.

(** X4: rest is kept. A player standing at [GROUND_Y_LEVEL] with no vertical
    speed, not airborne, with no jump queued, is in the same vertical state
    after [update] with any finite [dt], and the controller is untouched. *)
Theorem rest_is_kept (dt : float) (p : Player.t) (c : Controller.t) :
  is_finite dt = true ->
  Player.y p = GROUND_Y_LEVEL ->
  (snd (Player.speed p) =? 0.0) = true ->
  Player._is_in_air p = false ->
  Controller.jump_action_queued c = false ->
  let p' := fst (Player.update dt p c) in
  Player.y p' = GROUND_Y_LEVEL
  /\ snd (Player.speed p') = 0.0
  /\ Player._is_in_air p' = false
  /\ snd (Player.update dt p c) = c.
Proof.
  intros Hdt Hy Hv Ha Hq.
  destruct p as [[bx b_y lx hx ly hy] [vx vy] air], c as [q].
  unfold Player.y in Hy. cbn in Hy, Hv, Ha, Hq. subst air q b_y.
  cbv zeta. unfold Player.update, Player.y, Player.x. cbn. repeat split.
  destruct (zero_mul_finite _ _ Hv Hdt) as [s Hs].
  destruct (zero_mul_finite 0.0 dt eq_refl Hdt) as [s' Hs'].
  rewrite (add_zero_r GROUND_Y_LEVEL _ true 7205759403792794 (-53) s);
    [|reflexivity|exact Hs].
  rewrite (add_zero_r GROUND_Y_LEVEL _ true 7205759403792794 (-53) s');
    [reflexivity|reflexivity|exact Hs'].
Qed.

Lemma rest_is_kept_witness :
  let p := Player.__init__ 5.0 GROUND_Y_LEVEL in
  let c := Controller.Build false in
  Player.y (fst (Player.update 0.1 p c)) = GROUND_Y_LEVEL
  /\ snd (Player.speed (fst (Player.update 0.1 p c))) = 0.0
  /\ Player._is_in_air (fst (Player.update 0.1 p c)) = false
  /\ snd (Player.update 0.1 p c) = c.
Proof.
  apply (rest_is_kept 0.1 (Player.__init__ 5.0 GROUND_Y_LEVEL)
           (Controller.Build false)); reflexivity.
Defined.

(** X5: with a non-negative horizontal speed, as [__init__] sets it, and
    [dt >= 0], [update] never moves the player to a smaller [x]. *)
Theorem update_never_moves_back (dt : float) (p : Player.t) (c : Controller.t) :
  geb (fst (Player.speed p)) 0.0 = true ->
  geb dt 0.0 = true ->
  (Player.x (fst (Player.update dt p c)) <? Player.x p) = false.
Proof.
  intros Hv Hdt. destruct (update_frame dt p c) as [-> _].
  destruct (mul_nonneg _ _ Hv Hdt) as [N|P].
  - apply ltb_nan_l, add_nan_r, N.
  - apply add_nonneg_not_lt, P.
Qed.

Lemma update_never_moves_back_witness :
  (Player.x (fst (Player.update 0.1 (Player.__init__ 5.0 GROUND_Y_LEVEL)
                                (Controller.Build true))) <? 5.0) = false.
Proof.
  apply (update_never_moves_back 0.1 (Player.__init__ 5.0 GROUND_Y_LEVEL)
           (Controller.Build true)); reflexivity.
Defined.

(** * GameState: failure and frame of [update], many ticks *)

(** X6: on a [GameState] whose [player] is [None], on the instance and on the
    class, [update] raises [AttributeError] and changes nothing. *)
Theorem update_without_player
    (dt : float) (self : GameState.t) (w : World) :
  default (player (GameState_class w)) (GameState.own_player self) = None ->
  GameState.update dt self w = (Raise AttributeError, w).
Proof.
  intros Hp.
  unfold GameState.update, GameState.get_player, getattr_x_opt, bind, gets.
  rewrite Hp. reflexivity.
Qed.

Lemma update_without_player_witness :
  GameState.update 0.1 GameState.__new__ two_object_world
  = (Raise AttributeError, two_object_world).
Proof.
  apply (update_without_player 0.1 GameState.__new__ two_object_world).
  reflexivity.
Defined.

(** X7: [update] writes on the instance only. Whether it returns or raises,
    the class attributes of [GameState] (among them the [camera_position]
    that [check_for_destroy] reads), the objects and the registry are what
    they were, so an expiry check answers the same before and after it. *)
Theorem update_leaves_the_store
    (dt : float) (self : GameState.t) (w : World) (o : ref) :
  snd (GameState.update dt self w) = w
  /\ Obstacle.check_for_destroy o (snd (GameState.update dt self w))
     = Obstacle.check_for_destroy o w.
Proof.
  assert (H : snd (GameState.update dt self w) = w).
  { unfold GameState.update, GameState.get_player, GameState.get_total_time_played,
      getattr_x_opt, getattr_x, bind, gets, deref, ret, raise.
    cbn [GameState.own_player GameState.own_total_time_played].
    destruct (default (player (GameState_class w)) (GameState.own_player self))
      as [r|]; [|reflexivity].
    cbn iota. destruct (heap w !! r); reflexivity. }
  split; [exact H|]. rewrite H. reflexivity.
Qed.

(** X8: over any number of ticks with [dt >= 0] each, on a [GameState] whose
    player is set, every [update] returns and [total_time_played] ends no
    smaller than it started. *)
Theorem total_time_never_decreases
    (dts : list float) (self : GameState.t) (w : World) (r : ref) (ob : object) :
  default (player (GameState_class w)) (GameState.own_player self) = Some r ->
  heap w !! r = Some ob ->
  Forall (fun dt => geb dt 0.0 = true) dts ->
  exists s,
    run_ticks dts self w = (Ok s, w)
    /\ (default (total_time_played (GameState_class w))
                (GameState.own_total_time_played s)
        <? default (total_time_played (GameState_class w))
                   (GameState.own_total_time_played self)) = false.
Proof.
  intros Hp Hr Hd.
  set (tot := fun s : GameState.t =>
                default (total_time_played (GameState_class w))
                        (GameState.own_total_time_played s)).
  set (t0 := tot self).
  assert (Hgen : forall self0,
             default (player (GameState_class w)) (GameState.own_player self0) = Some r ->
             is_nan (tot self0) = true \/ (t0 <=? tot self0) = true ->
             exists s, run_ticks dts self0 w = (Ok s, w)
                       /\ (is_nan (tot s) = true \/ (t0 <=? tot s) = true)).
  { induction Hd as [|dt dts Hdt Hd IH]; intros self0 Hp0 Hinv.
    - exists self0. split; [reflexivity|exact Hinv].
    - cbn [run_ticks]. unfold bind.
      rewrite (GameState_update_eq dt self0 w r ob Hp0 Hr).
      apply IH; [exact Hp0|].
      match goal with
      | |- context [tot ?s1] =>
          replace (tot s1) with (tot self0 + dt) by reflexivity
      end.
      destruct Hinv as [N|L]; [left; apply add_nan_l, N|].
      destruct (is_nan (tot self0 + dt)) eqn:N'; [left; reflexivity|right].
      apply (leb_trans _ (tot self0)); [exact L|].
      apply ltb_false_leb; [exact N'| |apply add_nonneg_not_lt, Hdt].
      destruct (is_nan (tot self0)) eqn:N0; [|reflexivity].
      rewrite (leb_nan_r _ _ N0) in L. discriminate. }
  destruct (Hgen self Hp) as (s & Hs & Hinv).
  { destruct (is_nan t0) eqn:N; [left; exact N|right; apply leb_refl, N]. }
  exists s. split; [exact Hs|]. fold (tot s) (tot self). fold t0.
  destruct Hinv as [N|L]; [apply ltb_nan_l, N|apply leb_not_ltb, L].
Qed.

Lemma total_time_never_decreases_witness :
  exists s,
    run_ticks [0.1; 0.0; 0.25] GameState.__new__ first_spawn_world
    = (Ok s, first_spawn_world)
    /\ (default 0.0 (GameState.own_total_time_played s) <? 0.0) = false.
Proof.
  apply (total_time_never_decreases [0.1; 0.0; 0.25] GameState.__new__
           first_spawn_world 0%nat (APlayer (Player.__init__ 5.0 GROUND_Y_LEVEL)));
    [reflexivity|reflexivity|].
  repeat constructor.
Defined.

(** * ObstacleManager: the overlap test and the loop built on it *)

(** X9: the overlap test reads the positions only to pick a direction for
    its comparisons. When [obs1.higher_x_bound == obs2.lower_x_bound] and
    [obs1.lower_y_bound == obs2.higher_y_bound], as for any two objects that
    share one value for their four bounds, both directions agree and the two
    objects overlap wherever they are. *)
Theorem touching_bounds_overlap (obs1 obs2 : CollisionObject.t) :
  (CollisionObject.higher_x_bound obs1 =? CollisionObject.lower_x_bound obs2) = true ->
  (CollisionObject.lower_y_bound obs1 =? CollisionObject.higher_y_bound obs2) = true ->
  ObstacleManager._obstacles_do_overlap obs1 obs2 = true.
Proof.
  intros Hx Hy. destruct (eqb_leb _ _ Hx) as [X1 X2].
  destruct (eqb_leb _ _ Hy) as [Y1 Y2].
  unfold ObstacleManager._obstacles_do_overlap, geb. rewrite X1, X2, Y1, Y2.
  destruct (CollisionObject.x obs1 <=? CollisionObject.x obs2),
           (CollisionObject.y obs2 <=? CollisionObject.y obs1); reflexivity.
Qed.

Lemma touching_bounds_overlap_witness :
  ObstacleManager._obstacles_do_overlap
    (CollisionObject.__init__ 0.0 0.0 0.1 0.1 0.1 0.1)
    (CollisionObject.__init__ 100.0 50.0 0.1 0.1 0.1 0.1) = true.
Proof.
  apply (touching_bounds_overlap
           (CollisionObject.__init__ 0.0 0.0 0.1 0.1 0.1 0.1)
           (CollisionObject.__init__ 100.0 50.0 0.1 0.1 0.1 0.1)); reflexivity.
Defined.

(** Assigning [x] keeps the bounds. *)
Lemma assign_x_bounds (v : float) (ob : object) :
  CollisionObject.bounds (fields (assign_x v ob)) = CollisionObject.bounds (fields ob).
Proof. destruct ob; reflexivity. Qed.



(** * ObstacleManager: the first-obstacle helper *)

(** X11: called with a live obstacle while [GameState.player] is set,
    [_simple_set_obstacle_at_the_right_of_player] returns normally, assigns
    [player.x + FIRST_OBSTACLE_OFFSET_IN_X] to the obstacle's [x], which is
    never to the left of the player, keeps its bounds, appends it to the
    registry (even if it is there already) and touches no other object. *)
Theorem helper_places_right_of_player
    (curr_obstacle r : ref) (w : World) (pl ob : object) :
  player (GameState_class w) = Some r ->
  heap w !! r = Some pl ->
  heap w !! curr_obstacle = Some ob ->
  let res := fst (ObstacleManager._simple_set_obstacle_at_the_right_of_player
                    curr_obstacle w) in
  let w' := snd (ObstacleManager._simple_set_obstacle_at_the_right_of_player
                   curr_obstacle w) in
  res = Ok tt
  /\ obstacles w' = obstacles w ++ [curr_obstacle]
  /\ (exists ob',
        heap w' !! curr_obstacle = Some ob'
        /\ CollisionObject.x (fields ob')
           = CollisionObject.x (fields pl) + ObstacleManager.FIRST_OBSTACLE_OFFSET_IN_X
        /\ (CollisionObject.x (fields ob') <? CollisionObject.x (fields pl)) = false
        /\ CollisionObject.bounds (fields ob') = CollisionObject.bounds (fields ob))
  /\ (forall r', r' <> curr_obstacle -> heap w' !! r' = heap w !! r').
Proof.
  intros Hp Hr Ho. cbv zeta.
  rewrite (_simple_set_obstacle_at_the_right_of_player_eq _ _ _ _ _ Hp Hr Ho).
  cbn [fst snd]. split; [reflexivity|]. split; [reflexivity|]. split.
  - eexists. split; [apply lookup_insert_eq|].
    assert (Hx : forall v, CollisionObject.x (fields (assign_x v ob)) = v)
      by (intros v; destruct ob; reflexivity).
    rewrite Hx. split; [reflexivity|]. split.
    + apply add_nonneg_not_lt. reflexivity.
    + apply assign_x_bounds.
  - intros r' Hne. cbn. apply lookup_insert_ne. congruence.
Qed.

Lemma helper_places_right_of_player_witness :
  let res := fst (ObstacleManager._simple_set_obstacle_at_the_right_of_player
                    1%nat first_spawn_world) in
  let w' := snd (ObstacleManager._simple_set_obstacle_at_the_right_of_player
                   1%nat first_spawn_world) in
  res = Ok tt
  /\ obstacles w' = [] ++ [1%nat]
  /\ (exists ob',
        heap w' !! 1%nat = Some ob'
        /\ CollisionObject.x (fields ob') = 5.0 + 0.8
        /\ (CollisionObject.x (fields ob') <? 5.0) = false
        /\ CollisionObject.bounds (fields ob') = (0.1, 0.1, 0.1, 0.1))
  /\ (forall r', r' <> 1%nat ->
        heap w' !! r' = heap first_spawn_world !! r').
Proof.
  apply (helper_places_right_of_player 1%nat 0%nat first_spawn_world
           (APlayer (Player.__init__ 5.0 GROUND_Y_LEVEL))
           (Plain (CollisionObject.__init__ 0.0 0.0 0.1 0.1 0.1 0.1)));
    reflexivity.
Defined.

(** X12: while [GameState.player] is still [None] the helper raises
    [AttributeError] and leaves the obstacle and the registry alone. *)
Theorem helper_without_player (curr_obstacle : ref) (w : World) :
  player (GameState_class w) = None ->
  ObstacleManager._simple_set_obstacle_at_the_right_of_player curr_obstacle w
  = (Raise AttributeError, w).
Proof.
  intros Hp.
  unfold ObstacleManager._simple_set_obstacle_at_the_right_of_player,
    GameState.get_player, getattr_x_opt, bind, gets.
  cbn. rewrite Hp. reflexivity.
Qed.

Lemma helper_without_player_witness :
  ObstacleManager._simple_set_obstacle_at_the_right_of_player 1%nat two_object_world
  = (Raise AttributeError, two_object_world).
Proof.
  apply (helper_without_player 1%nat two_object_world). reflexivity.
Defined.

(** * Obstacle *)

(** X13: constructing an [Obstacle] never succeeds. The new object is built
    with the six arguments and appended to the registry, then the call to
    [ObstacleManager.set_random_position], a name the class does not define,
    raises [AttributeError]: the caller gets no object, the registry keeps
    one, and nothing else changes. *)
Theorem Obstacle_init_raises
    (fuel : nat) (x y lower_x_bound higher_x_bound lower_y_bound higher_y_bound : float)
    (w : World) :
  let res := fst (Obstacle.__init__ fuel x y lower_x_bound higher_x_bound
                                    lower_y_bound higher_y_bound w) in
  let w' := snd (Obstacle.__init__ fuel x y lower_x_bound higher_x_bound
                                   lower_y_bound higher_y_bound w) in
  res = Raise AttributeError
  /\ obstacles w' = obstacles w ++ [next_ref w]
  /\ heap w' !! next_ref w
     = Some (Plain (CollisionObject.__init__ x y lower_x_bound higher_x_bound
                                             lower_y_bound higher_y_bound))
  /\ (forall r, r <> next_ref w -> heap w' !! r = heap w !! r)
  /\ GameState_class w' = GameState_class w
  /\ randn_next w' = randn_next w.
Proof.
  cbv zeta. unfold Obstacle.__init__, bind, alloc, deque_append, modify,
    ObstacleManager.getattr, raise. cbn.
  repeat split.
  - apply lookup_insert_eq.
  - intros r Hne. apply lookup_insert_ne. congruence.
Qed.

(** X14: on a live obstacle [check_for_destroy] always returns [None] and
    changes nothing, on either side of the threshold. *)
Theorem check_for_destroy_is_a_no_op (self : ref) (w : World) (ob : object) :
  heap w !! self = Some ob ->
  Obstacle.check_for_destroy self w = (Ok tt, w).
Proof.
  intros H. unfold Obstacle.check_for_destroy, getattr_x, bind, deref, gets, ret.
  rewrite H. cbn iota beta.
  match goal with |- context [if ?b then _ else _] => destruct b end; reflexivity.
Qed.

Lemma check_for_destroy_is_a_no_op_witness :
  Obstacle.check_for_destroy 1%nat first_spawn_world = (Ok tt, first_spawn_world).
Proof.
  apply (check_for_destroy_is_a_no_op 1%nat first_spawn_world
           (Plain (CollisionObject.__init__ 0.0 0.0 0.1 0.1 0.1 0.1))).
  reflexivity.
Defined.

(** * CollisionObject: edges of the probe *)

(** X15: against an object whose lower and higher bound coincide on each
    axis, which is how [Player.__init__] builds every player, the probe
    answers true only for the one offset equal to those bounds. *)
Theorem pinched_bounds_collide_at_one_offset (A B : CollisionObject.t) :
  CollisionObject.lower_x_bound B = CollisionObject.higher_x_bound B ->
  CollisionObject.lower_y_bound B = CollisionObject.higher_y_bound B ->
  CollisionObject.is_colliding_with_object A B
  = (CollisionObject.x A - CollisionObject.x B =? CollisionObject.higher_x_bound B)
    && (CollisionObject.y A - CollisionObject.y B =? CollisionObject.higher_y_bound B).
Proof.
  intros Hx Hy. unfold CollisionObject.is_colliding_with_object.
  rewrite Hx, Hy, <- !leb_both_eqb.
  rewrite (andb_comm (CollisionObject.higher_x_bound B <=? _)),
          (andb_comm (CollisionObject.higher_y_bound B <=? _)).
  destruct (_ && _ && _); reflexivity.
Qed.

Lemma pinched_bounds_collide_at_one_offset_witness :
  CollisionObject.is_colliding_with_object
    probe_point (Player.base (Player.__init__ 0.3 0.0))
  = (0.5 - 0.3 =? 0.1) && (0.0 - 0.0 =? 0.1).
Proof.
  apply (pinched_bounds_collide_at_one_offset probe_point
           (Player.base (Player.__init__ 0.3 0.0))); reflexivity.
Defined.

(** X16: an offset that is NaN on either axis, as a NaN or two equal infinite
    coordinates give, never collides. *)
Theorem nan_offset_never_collides (A B : CollisionObject.t) :
  is_nan (CollisionObject.x A - CollisionObject.x B) = true
  \/ is_nan (CollisionObject.y A - CollisionObject.y B) = true ->
  CollisionObject.is_colliding_with_object A B = false.
Proof.
  unfold CollisionObject.is_colliding_with_object.
  intros [N|N]; rewrite (leb_nan_r _ _ N); cbn [andb]; [reflexivity|].
  rewrite andb_false_r. reflexivity.
Qed.

Lemma nan_offset_never_collides_witness :
  CollisionObject.is_colliding_with_object
    (CollisionObject.__init__ infinity 0.0 0.0 0.0 0.0 0.0)
    (CollisionObject.__init__ infinity 0.0 neg_infinity infinity neg_infinity infinity)
  = false.
Proof.
  apply nan_offset_never_collides. left. reflexivity.
Defined.
